(** * Email ticketing pipeline: a shallow embedding of [python.py]

    The program polls a POP3 mailbox, classifies every message as a bounce
    or as a support request, and records it in a SQL Server database: a
    bounce as a row of [undelivered_emails], a request as a row of [dbo.cms]
    carrying a ticket number computed as [MAX(tkt_no) + 1].

    Conventions of the embedding.
    - A Python [str] is a [string]; a character is a code point below 256.
    - A Python [int] is a [Z]; [None] is the [None] of an [option].
    - A message is taken as the [email] package parses it, with its
      header values already passed through [decode_mime_words] and
      [parseaddr]; a header these cannot decode makes [process_email]
      raise before it touches anything, and is outside the model. The
      charset decoding of a body part is inside it: the program catches
      its failure.
    - The database connection is opened with [autocommit=False]: statements
      change the pending state of the open transaction, [commit] publishes
      it, [rollback] and [close] discard it.
    - Calls that leave the process (database, mailbox, file system) may
      raise; which of them raise while one message is handled is given by an
      [Env] record, and exceptions are values of the monad [M].
    - The run starts where both connections are open; console output
      ([print]) is not modelled. *)

From Stdlib Require Import ZArith Lia Bool Ascii DecimalString.
From stdpp Require Import gmap strings list sorting.

Set Warnings "-register-all".
Local Open Scope Z_scope.

(* ================================================================= *)
(** ** Python strings *)

Module Str.

Fixpoint take (n : nat) (s : string) : string :=
  match n, s with
  | S n', String c s' => String c (take n' s')
  | _, _ => ""
  end.

Fixpoint drop (n : nat) (s : string) : string :=
  match n, s with
  | S n', String _ s' => drop n' s'
  | _, _ => s
  end.

(** [s[:n]] for an arbitrary integer [n]: a negative bound counts from the
    end of the string. *)
Definition slice_to (s : string) (n : Z) : string :=
  if 0 <=? n then take (Z.to_nat n) s
  else take (String.length s - Z.to_nat (- n)) s.

Fixpoint map (f : ascii → ascii) (s : string) : string :=
  match s with
  | "" => ""
  | String c s' => String (f c) (map f s')
  end.

Fixpoint filter (p : ascii → bool) (s : string) : string :=
  match s with
  | "" => ""
  | String c s' => if p c then String c (filter p s') else filter p s'
  end.

Fixpoint forallb (p : ascii → bool) (s : string) : bool :=
  match s with
  | "" => true
  | String c s' => p c && forallb p s'
  end.

(** [needle in s]. *)
Fixpoint contains (needle s : string) : bool :=
  String.prefix needle s
  || match s with
     | "" => false
     | String _ s' => contains needle s'
     end.

(** [str.lower] on code points below 256: the ASCII capitals and the
    Latin-1 capitals (all of 192..222 but the multiplication sign 215) move
    up by 32. *)
Definition lower_char (c : ascii) : ascii :=
  let n := nat_of_ascii c in
  if ((65 <=? n) && (n <=? 90))%nat
     || ((192 <=? n) && (n <=? 222) && negb (n =? 215))%nat
  then ascii_of_nat (n + 32) else c.

Definition lower : string → string := map lower_char.

(** [str.isspace] on one character, which is also what [\s] matches in a
    [str] pattern: TAB..CR, FS..US, space, NEL and the no-break space. *)
Definition isspace (c : ascii) : bool :=
  let n := nat_of_ascii c in
  ((9 <=? n) && (n <=? 13) || (28 <=? n) && (n <=? 32)
   || (n =? 133) || (n =? 160))%nat.

Fixpoint lstrip (s : string) : string :=
  match s with
  | "" => ""
  | String c s' => if isspace c then lstrip s' else s
  end.

Fixpoint rstrip (s : string) : string :=
  match s with
  | "" => ""
  | String c s' =>
      match rstrip s' with
      | "" => if isspace c then "" else String c ""
      | r => String c r
      end
  end.

Definition strip (s : string) : string := rstrip (lstrip s).

(** [str.rfind] for one character; [-1] when it does not occur. *)
Fixpoint rfind_nat (c : ascii) (s : string) : option nat :=
  match s with
  | "" => None
  | String a s' =>
      match rfind_nat c s' with
      | Some k => Some (S k)
      | None => if Ascii.eqb a c then Some 0%nat else None
      end
  end.

Definition rfind (c : ascii) (s : string) : Z :=
  match rfind_nat c s with
  | Some k => Z.of_nat k
  | None => -1
  end.

(** [str(n)] and [f"{n}"] for an [int]. *)
Definition of_Z (n : Z) : string := NilZero.string_of_int (Z.to_int n).

(** Truthiness of a [str]. *)
Definition truthy (s : string) : bool :=
  match s with "" => false | _ => true end.

(** [s.split(sep)[0]]: the text before the first separator. *)
Fixpoint before (sep : ascii) (s : string) : string :=
  match s with
  | "" => ""
  | String c s' => if Ascii.eqb c sep then "" else String c (before sep s')
  end.

End Str.

(* ================================================================= *)
(** ** Small helpers *)

(** [s or ""] for [s : str | None]. *)
Definition or_empty (s : option string) : string := default "" s.

Definition fit (s : option string) (n : Z) : string :=
  Str.slice_to (or_empty s) n.

(* ================================================================= *)
(** ** Messages

    A parsed message is a tree: a leaf holds a payload, a multipart node
    holds its sub-parts ([is_multipart()] is true exactly when the payload
    is a list). *)

Record Headers := mkHeaders {
  (** [parseaddr(decode_mime_words(msg.get("From", "")))[1]] *)
  hdr_sender : string;
  (** [decode_mime_words(msg.get("Subject", ""))] *)
  hdr_subject : string;
  (** [get_content_type()], lower case, [maintype/subtype] *)
  hdr_content_type : string;
  (** [get_filename()], decoded *)
  hdr_filename : option string;
}.

Inductive Message : Type :=
  (** [payload] is [get_payload(decode=True)]; [text] is
      [payload.decode(get_content_charset() or "utf-8", "ignore")], or
      [None] when that call raises (an unknown charset). *)
  | Leaf (h : Headers) (payload : string) (text : option string)
  | Multipart (h : Headers) (parts : list Message).

Definition headers (m : Message) : Headers :=
  match m with Leaf h _ _ => h | Multipart h _ => h end.

Definition is_multipart (m : Message) : bool :=
  match m with Leaf _ _ _ => false | Multipart _ _ => true end.

Definition get_content_type (m : Message) : string :=
  hdr_content_type (headers m).

Definition get_content_maintype (m : Message) : string :=
  Str.before "/" (get_content_type m).

Definition get_filename (m : Message) : option string :=
  hdr_filename (headers m).

(** [part.get_payload(decode=True)]: [None] on a multipart node. *)
Definition get_payload (m : Message) : option string :=
  match m with Leaf _ p _ => Some p | Multipart _ _ => None end.

(** The [try] block around [get_payload(decode=True).decode(...)]:
    [None] stands for the exception, raised by the charset lookup on a
    leaf and by [None.decode] on a multipart node. *)
Definition decoded_text (m : Message) : option string :=
  match m with Leaf _ _ t => t | Multipart _ _ => None end.

(** [msg.walk()]: the node itself, then its sub-parts, depth first. *)
Fixpoint walk (m : Message) : list Message :=
  match m with
  | Leaf _ _ _ => [m]
  | Multipart _ ps =>
      m :: (fix walk_all (l : list Message) : list Message :=
              match l with
              | [] => []
              | p :: l' => walk p ++ walk_all l'
              end) ps
  end.

(* ================================================================= *)
(** ** Bounce classifier *)

Definition needles : list string :=
  ["undelivered"; "return to sender"; "mail delivery failed";
   "delivery status notification"; "mailer-daemon"; "bounce"].

(** [any(n in s for n in needles)] *)
Definition any_needle_in (s : string) : bool :=
  existsb (λ n, Str.contains n s) needles.

Definition is_text_type (ctype : string) : bool :=
  String.eqb ctype "text/plain" || String.eqb ctype "text/html".

(** The [for part in msg.walk()] loop of [is_undelivered]. *)
Fixpoint scan_parts (parts : list Message) : bool :=
  match parts with
  | [] => false
  | part :: rest =>
      let ctype := get_content_type part in
      if is_text_type ctype then
        match decoded_text part with
        | None => scan_parts rest
        | Some txt =>
            if any_needle_in (Str.lower txt) then true else scan_parts rest
        end
      else scan_parts rest
  end.

Definition is_undelivered (msg : Message) : bool :=
  let subj := Str.lower (hdr_subject (headers msg)) in
  if any_needle_in subj then true else scan_parts (walk msg).

(* ================================================================= *)
(** ** Database

    Columns that the program fills through [fit] hold a string; every
    other column is nullable and holds what the program passes. Dates and
    timestamps are numbers read off the clock. *)

Module Cms.
Record row := mk {
  tkt_no : option Z;
  ffnum : string;
  Req_Date : option Z;
  Category : string;
  Subject : string;
  cstatus : string;
  UpdateDate : option Z;
  UpdateBy : string;
  fwd_to : string;
  fwd_date : option Z;
  fwd_remarks : string;
  fwd_by : string;
  attachments : string;
  email : string;
  TopCategory : string;
  CorporateDetails : string;
  urgent : string;
  Req_By : string;
  PointsExp : string;
  tier : string;
  download_datetime : option Z;
  hitit_ref_no : string;
}.
End Cms.

(** The keyword arguments of [store_in_cms]. *)
Module Vals.
Record t := mk {
  tkt_no : Z;
  ffnum : option string;
  Req_Date : option Z;
  Category : option string;
  Subject : option string;
  cstatus : option string;
  UpdateDate : option Z;
  UpdateBy : option string;
  fwd_to : option string;
  fwd_date : option Z;
  fwd_remarks : option string;
  fwd_by : option string;
  attachments : option string;
  email : option string;
  TopCategory : option string;
  CorporateDetails : option string;
  urgent : option string;
  Req_By : option string;
  PointsExp : option string;
  tier : option string;
  download_datetime : option Z;
  hitit_ref_no : option string;
}.
End Vals.

Module Member.
Record row := mk {
  FFNUM : option string;
  EMAIL : option string;
  TITLE : option string;
  FNAME : option string;
  LNAME : option string;
  tier : option string;
}.
End Member.

Module Undelivered.
Record row := mk {
  sender_email : string;
  date_received : Z;
  reason : string;
}.
End Undelivered.

Record Tables := mkTables {
  cms : list Cms.row;
  member : list Member.row;
  undelivered_emails : list Undelivered.row;
}.

(** One connection: what is committed, and what the open transaction
    sees (the committed rows and its own uncommitted changes). *)
Record Db := mkDb {
  committed : Tables;
  pending : Tables;
}.

Definition db_commit (d : Db) : Db :=
  {| committed := pending d; pending := pending d |}.

Definition db_rollback (d : Db) : Db :=
  {| committed := committed d; pending := committed d |}.

(** [db.close()] with a transaction open discards it. *)
Definition db_close (d : Db) : Db := db_rollback d.

(** [SELECT MAX(tkt_no)]: [NULL] on no row, and [NULL] values are skipped. *)
Fixpoint sql_max (col : list (option Z)) : option Z :=
  match col with
  | [] => None
  | None :: rest => sql_max rest
  | Some v :: rest =>
      match sql_max rest with
      | None => Some v
      | Some m => Some (Z.max v m)
      end
  end.

(** [ISNULL(x, 0)] *)
Definition sql_isnull (x : option Z) (dflt : Z) : Z := default dflt x.

(** [x or 0] for an [int]. *)
Definition or_zero (x : Z) : Z := if x =? 0 then 0 else x.

(** The value [next_ticket_number] computes from the rows the cursor sees:
    [int((cur.fetchone()[0] or 0) + 1)] over
    [SELECT ISNULL(MAX(tkt_no), 0) FROM dbo.cms]. *)
Definition next_ticket_number_of (rows : list Cms.row) : Z :=
  or_zero (sql_isnull (sql_max (Cms.tkt_no <$> rows)) 0) + 1.

(** The row [store_in_cms] hands to the [INSERT]. *)
Definition cms_row_of (vals : Vals.t) : Cms.row :=
  {| Cms.tkt_no := Some (Vals.tkt_no vals);
     Cms.ffnum := fit (Vals.ffnum vals) 250;
     Cms.Req_Date := Vals.Req_Date vals;
     Cms.Category := fit (Vals.Category vals) 50;
     Cms.Subject := fit (Vals.Subject vals) 1600;
     Cms.cstatus := fit (Vals.cstatus vals) 1;
     Cms.UpdateDate := Vals.UpdateDate vals;
     Cms.UpdateBy := fit (Vals.UpdateBy vals) 50;
     Cms.fwd_to := fit (Vals.fwd_to vals) 50;
     Cms.fwd_date := Vals.fwd_date vals;
     Cms.fwd_remarks := fit (Vals.fwd_remarks vals) 250;
     Cms.fwd_by := fit (Vals.fwd_by vals) 50;
     Cms.attachments := fit (Vals.attachments vals) 100;
     Cms.email := fit (Vals.email vals) 200;
     Cms.TopCategory := fit (Vals.TopCategory vals) 30;
     Cms.CorporateDetails := fit (Vals.CorporateDetails vals) 12;
     Cms.urgent := fit (Vals.urgent vals) 5;
     Cms.Req_By := fit (Vals.Req_By vals) 25;
     Cms.PointsExp := fit (Vals.PointsExp vals) 1;
     Cms.tier := fit (Vals.tier vals) 1;
     Cms.download_datetime := Vals.download_datetime vals;
     Cms.hitit_ref_no := fit (Vals.hitit_ref_no vals) 50 |}.

(** The row [store_member] hands to the [INSERT]; [FFNUM] is passed as it
    is. *)
Definition member_row_of (ffnum : option string)
    (emailaddr title fname lname tier : option string) : Member.row :=
  {| Member.FFNUM := ffnum;
     Member.EMAIL := Some (fit emailaddr 200);
     Member.TITLE := Some (fit title 50);
     Member.FNAME := Some (fit fname 50);
     Member.LNAME := Some (fit lname 50);
     Member.tier := Some (fit tier 1) |}.

(** The row [store_undelivered_email] hands to the [INSERT]. *)
Definition undelivered_row_of (sender : option string) (now : Z)
    (reason : option string) : Undelivered.row :=
  {| Undelivered.sender_email := fit sender 200;
     Undelivered.date_received := now;
     Undelivered.reason := fit reason 200 |}.

Definition insert_cms (r : Cms.row) (t : Tables) : Tables :=
  {| cms := cms t ++ [r]; member := member t;
     undelivered_emails := undelivered_emails t |}.

Definition insert_member (r : Member.row) (t : Tables) : Tables :=
  {| cms := cms t; member := member t ++ [r];
     undelivered_emails := undelivered_emails t |}.

Definition insert_undelivered (r : Undelivered.row) (t : Tables) : Tables :=
  {| cms := cms t; member := member t;
     undelivered_emails := undelivered_emails t ++ [r] |}.

(** [SELECT ... FROM dbo.member WHERE col = ?] followed by [fetchone()]:
    the first row whose column equals the parameter ([NULL] equals
    nothing). Equality is that of the two texts; on the server the
    collation of the column decides. *)
Definition select_member (col : Member.row → option string)
    (key : option string) (t : Tables) : option Member.row :=
  List.find (λ r, match col r, key with
                  | Some a, Some b => String.eqb a b
                  | _, _ => false
                  end) (member t).

(* ================================================================= *)
(** ** File names *)

(** The character class of the first [re.sub] of [sanitize_filename]:
    backslash, slash, star, question mark, colon, double quote (code 34),
    the angle brackets and the bar. *)
Definition is_illegal (c : ascii) : bool :=
  existsb (Ascii.eqb c)
    ["\"; "/"; "*"; "?"; ":"; ascii_of_nat 34; "<"; ">"; "|"]%char.

(** [re.sub(r"\s+", " ", s)]: every maximal run of white space becomes one
    space; [in_run] tells that the previous character was white space. *)
Fixpoint collapse_ws (in_run : bool) (s : string) : string :=
  match s with
  | "" => ""
  | String c s' =>
      if Str.isspace c then
        if in_run then collapse_ws true s'
        else String " " (collapse_ws true s')
      else String c (collapse_ws false s')
  end.

(** [genericpath._splitext(p, sep, altsep, ".")], which is
    [os.path.splitext] with [sep = "/"] and no [altsep] on POSIX, and with
    [sep = "\"] and [altsep = "/"] on Windows. *)
Definition splitext_generic (sep : ascii) (altsep : option ascii)
    (p : string) : string * string :=
  let sepIndex :=
    match altsep with
    | Some a => Z.max (Str.rfind sep p) (Str.rfind a p)
    | None => Str.rfind sep p
    end in
  let dotIndex := Str.rfind "." p in
  if sepIndex <? dotIndex then
    (* the file name's characters before the last dot: p[sepIndex+1:dotIndex] *)
    let stem := Str.take (Z.to_nat (dotIndex - (sepIndex + 1)))
                  (Str.drop (Z.to_nat (sepIndex + 1)) p) in
    if Str.forallb (Ascii.eqb ".") stem then (p, "")
    else (Str.take (Z.to_nat dotIndex) p, Str.drop (Z.to_nat dotIndex) p)
  else (p, "").

Definition splitext : string → string * string :=
  splitext_generic "/" None.

Definition nt_splitext : string → string * string :=
  splitext_generic "\" (Some "/"%char).

(** The name after prefixing, removal of the illegal characters, white
    space collapse and [strip()], before the length cap. *)
Definition clean_filename (name : string) (ticket_no : Z) : string :=
  let name := Str.of_Z ticket_no +:+ "_" +:+ name in
  let name := Str.filter (λ c, negb (is_illegal c)) name in
  Str.strip (collapse_ws false name).

Definition sanitize_filename (name : string) (ticket_no : Z) : string :=
  let name := clean_filename name ticket_no in
  if (150 <? String.length name)%nat then
    let '(root, ext) := splitext name in
    Str.slice_to root 140 +:+ Str.slice_to ext 10
  else name.

(* ================================================================= *)
(** ** Body selection (the first part of [extract_and_save_body]) *)

(** The [for part in msg.walk()] loop over the parts still to visit, from
    the current values of [body_content] and [is_html]. *)
Fixpoint select_parts (parts : list Message)
    (body_content : option string) (is_html : bool) : option string * bool :=
  match parts with
  | [] => (body_content, is_html)
  | part :: rest =>
      if String.eqb (get_content_maintype part) "multipart" then
        select_parts rest body_content is_html
      else
        let ctype := get_content_type part in
        if String.eqb ctype "text/html" then
          match decoded_text part with
          | Some t => (Some t, true)
          | None => select_parts rest None is_html
          end
        else if String.eqb ctype "text/plain" && negb is_html then
          select_parts rest (decoded_text part) is_html
        else select_parts rest body_content is_html
  end.

Definition select_body (msg : Message) : option string * bool :=
  if is_multipart msg then select_parts (walk msg) None false
  else (decoded_text msg, false).

(** [body_content] after the two [if not ...] statements that follow the
    selection. *)
Definition body_document (msg : Message) : string :=
  let '(body_content, is_html) := select_body msg in
  let body_content :=
    match body_content with
    | Some s => if Str.truthy s then s else "(No message content)"
    | None => "(No message content)"
    end in
  if is_html then body_content
  else "<html><body><pre>" +:+ body_content +:+ "</pre></body></html>".

(* ================================================================= *)
(** ** Membership block *)

(** An f-string field holding [str | None]. *)
Definition fmt (o : option string) : string := default "None" o.

(** Truthiness of [str | None]. *)
Definition truthy_opt (o : option string) : bool :=
  match o with Some s => Str.truthy s | None => false end.

Definition membership_block (ffnum : option string)
    (member : option Member.row) : string :=
  match member with
  | Some m =>
      "<hr><div><strong>Membership Information</strong></div><ul>"
      +:+ "<li><strong>FFNUM:</strong> " +:+ fmt ffnum +:+ "</li>"
      +:+ "<li><strong>Title:</strong> " +:+ fmt (Member.TITLE m) +:+ "</li>"
      +:+ "<li><strong>First Name:</strong> " +:+ fmt (Member.FNAME m)
      +:+ "</li>"
      +:+ "<li><strong>Last Name:</strong> " +:+ fmt (Member.LNAME m)
      +:+ "</li>"
      +:+ "<li><strong>Tier:</strong> " +:+ fmt (Member.tier m) +:+ "</li>"
      +:+ "</ul>"
  | None =>
      "<hr><div><strong>Membership Information</strong></div>"
      +:+ "<p>No record found for FFNUM <em>"
      +:+ (if truthy_opt ffnum then fmt ffnum else "N/A") +:+ "</em>.</p>"
  end.

(** A match of [</body\s*>] (ignoring case) at the head of [s]: the
    number of characters it spans. *)
Definition match_close_body (s : string) : option nat :=
  match s with
  | String c1 (String c2 (String c3 (String c4 (String c5 (String c6 r))))) =>
      if Ascii.eqb c1 "<" && Ascii.eqb c2 "/"
         && Ascii.eqb (Str.lower_char c3) "b"
         && Ascii.eqb (Str.lower_char c4) "o"
         && Ascii.eqb (Str.lower_char c5) "d"
         && Ascii.eqb (Str.lower_char c6) "y"
      then
        match Str.lstrip r with
        | String c7 _ =>
            if Ascii.eqb c7 ">" then
              Some (6 + (String.length r - String.length (Str.lstrip r)) + 1)%nat
            else None
        | "" => None
        end
      else None
  | _ => None
  end.

Fixpoint search_close_body (s : string) : bool :=
  match s with
  | "" => false
  | String _ s' => bool_decide (is_Some (match_close_body s))
                   || search_close_body s'
  end.

(** One item of a parsed replacement template: a literal character, or
    the whole match ([\g<0>]). *)
Inductive tpl_item := TLit (c : ascii) | TMatch.

Definition is_digit (c : ascii) : bool :=
  let n := nat_of_ascii c in ((48 <=? n) && (n <=? 57))%nat.

Definition is_octdigit (c : ascii) : bool :=
  let n := nat_of_ascii c in ((48 <=? n) && (n <=? 55))%nat.

Definition is_ascii_letter (c : ascii) : bool :=
  let n := nat_of_ascii c in
  ((65 <=? n) && (n <=? 90) || (97 <=? n) && (n <=? 122))%nat.

Definition digit_val (c : ascii) : nat := nat_of_ascii c - 48.

(** The escapes a replacement template knows. *)
Definition template_escape (c : ascii) : option ascii :=
  match c with
  | "a" => Some (ascii_of_nat 7)
  | "b" => Some (ascii_of_nat 8)
  | "f" => Some (ascii_of_nat 12)
  | "n" => Some (ascii_of_nat 10)
  | "r" => Some (ascii_of_nat 13)
  | "t" => Some (ascii_of_nat 9)
  | "v" => Some (ascii_of_nat 11)
  | "\" => Some "\"
  | _ => None
  end%char.

(** The text up to the first [c], and the text after it. *)
Fixpoint split_at (c : ascii) (s : string) : option (string * string) :=
  match s with
  | "" => None
  | String a s' =>
      if Ascii.eqb a c then Some ("", s')
      else match split_at c s' with
           | Some (l, r) => Some (String a l, r)
           | None => None
           end
  end.

(** How [re.sub] reads its replacement string when the pattern has no
    group (Python 3.12): [None] stands for the [re.error] or [IndexError]
    raised on a bad escape or on a reference to a group other than 0. *)
Fixpoint parse_template (fuel : nat) (s : string) : option (list tpl_item) :=
  match fuel with
  | O => None
  | S fuel =>
      match s with
      | "" => Some []
      | String c rest =>
          if negb (Ascii.eqb c "\") then cons (TLit c) <$> parse_template fuel rest
          else
            match rest with
            | "" => None
            | String e rest1 =>
                if Ascii.eqb e "g" then
                  match rest1 with
                  | String lt rest2 =>
                      if Ascii.eqb lt "<" then
                        match split_at ">" rest2 with
                        | Some (name, rest3) =>
                            if Str.truthy name && Str.forallb (Ascii.eqb "0") name
                            then cons TMatch <$> parse_template fuel rest3
                            else None
                        | None => None
                        end
                      else None
                  | "" => None
                  end
                else if Ascii.eqb e "0" then
                  match rest1 with
                  | String d1 rest2 =>
                      if is_octdigit d1 then
                        match rest2 with
                        | String d2 rest3 =>
                            if is_octdigit d2 then
                              cons (TLit (ascii_of_nat (8 * digit_val d1 + digit_val d2)))
                                <$> parse_template fuel rest3
                            else cons (TLit (ascii_of_nat (digit_val d1)))
                                   <$> parse_template fuel rest2
                        | "" => Some [TLit (ascii_of_nat (digit_val d1))]
                        end
                      else cons (TLit (ascii_of_nat 0)) <$> parse_template fuel rest1
                  | "" => Some [TLit (ascii_of_nat 0)]
                  end
                else if is_digit e then
                  match rest1 with
                  | String d1 (String d2 rest3) =>
                      if is_octdigit e && is_octdigit d1 && is_octdigit d2 then
                        let v := (64 * digit_val e + 8 * digit_val d1 + digit_val d2)%nat in
                        if (255 <? v)%nat then None
                        else cons (TLit (ascii_of_nat v)) <$> parse_template fuel rest3
                      else None
                  | _ => None
                  end
                else
                  match template_escape e with
                  | Some a => cons (TLit a) <$> parse_template fuel rest1
                  | None =>
                      if is_ascii_letter e then None
                      else (λ l, TLit c :: TLit e :: l) <$> parse_template fuel rest1
                  end
            end
      end
  end.

Definition expand_template (tpl : list tpl_item) (matched : string) : string :=
  foldr (λ it acc, match it with
                   | TLit c => String c acc
                   | TMatch => matched +:+ acc
                   end) "" tpl.

(** [re.sub(r"</body\s*>", repl, s, flags=re.IGNORECASE)] once the
    template is parsed: [skip] characters of the current match are still to
    be dropped. *)
Fixpoint sub_close_body (tpl : list tpl_item) (skip : nat) (s : string) : string :=
  match s with
  | "" => ""
  | String c s' =>
      match skip with
      | S k => sub_close_body tpl k s'
      | O =>
          match match_close_body s with
          | Some n => expand_template tpl (Str.take n s)
                      +:+ sub_close_body tpl (n - 1) s'
          | None => String c (sub_close_body tpl 0 s')
          end
      end
  end.

(** The document written for a ticket: the selected body with the
    membership block before every closing body tag, or appended. [None]
    when [re.sub] raises. *)
Definition enriched_document (msg : Message) (ffnum : option string)
    (member : option Member.row) : option string :=
  let body_content := body_document msg in
  let block := membership_block ffnum member in
  if search_close_body body_content then
    let repl := block +:+ "</body>" in
    tpl ← parse_template (S (String.length repl)) repl;
    Some (sub_close_body tpl 0 body_content)
  else Some (body_content +:+ block).

(* ================================================================= *)
(** ** State, exceptions and the outside world *)

Inductive exn := DatabaseError | OSError | TypeError | ReError.

Variant outcome (A : Type) : Type :=
  | Returned (a : A)
  | Raised (e : exn).
Arguments Returned {A} a.
Arguments Raised {A} e.

(** What the process can change: the module-level [ATTACH_DIR] (a path, as
    its components), the database connection, the files under
    [ATTACH_DIR], and the content of [ticket_uuids.json]. *)
Record World := mkWorld {
  ATTACH_DIR : list string;
  db : Db;
  files : gmap (list string) string;
  uuid_log : gmap string string;
}.

Definition M (A : Type) : Type := World → outcome A * World.

#[export] Instance M_ret : MRet M := λ A a w, (Returned a, w).

#[export] Instance M_bind : MBind M := λ A B f m w,
  match m w with
  | (Returned a, w') => f a w'
  | (Raised e, w') => (Raised e, w')
  end.

Definition raise {A : Type} (e : exn) : M A := λ w, (Raised e, w).

(** [try: m] / [except Exception as e: handler e] *)
Definition try_except {A : Type} (m : M A) (handler : exn → M A) : M A :=
  λ w, match m w with
       | (Returned a, w') => (Returned a, w')
       | (Raised e, w') => handler e w'
       end.

Definition gets {A : Type} (f : World → A) : M A := λ w, (Returned (f w), w).

Definition set_db (f : Db → Db) (w : World) : World :=
  {| ATTACH_DIR := ATTACH_DIR w; db := f (db w);
     files := files w; uuid_log := uuid_log w |}.

Definition set_pending (f : Tables → Tables) : Db → Db :=
  λ d, {| committed := committed d; pending := f (pending d) |}.

Definition modify (f : World → World) : M unit := λ w, (Returned tt, f w).

(** The statements the program sends, by the place that sends them. *)
Inductive Stmt :=
  | SelectMember            (* fetch_member *)
  | SelectMemberExists      (* store_member, first statement *)
  | InsertMember            (* store_member, second statement *)
  | SelectMemberByEmail     (* fetch_member_by_email *)
  | SetIsolationAlloc       (* next_ticket_number, first statement *)
  | SelectMax               (* next_ticket_number, second statement *)
  | InsertUndelivered       (* store_undelivered_email *)
  | InsertCms               (* store_in_cms *)
  | SetIsolation            (* process_email, before the try block *)
  | Commit.                 (* db.commit() *)

(** What the outside world does while one message is handled. *)
Record Env := mkEnv {
  (** the statement raises *)
  stmt_fails : Stmt → bool;
  (** creating or writing this path raises *)
  write_fails : list string → bool;
  (** [email.message_from_bytes] of [pop_conn.retr(i)], [None] when
      the retrieval raises *)
  retr : option Message;
  (** [pop_conn.dele(i)] raises *)
  dele_fails : bool;
  (** [datetime.date.today()] and [datetime.datetime.now()] *)
  today : Z;
  now : Z;
  (** [str(uuid.uuid4())] for the log *)
  uuid : string;
}.

(** [cur.execute(...)] as far as raising goes. *)
Definition execute (env : Env) (s : Stmt) : M unit :=
  if stmt_fails env s then raise DatabaseError else mret tt.

Definition write_file (env : Env) (path : list string) (content : string)
    : M unit :=
  if write_fails env path then raise OSError
  else modify (λ w, {| ATTACH_DIR := ATTACH_DIR w; db := db w;
                       files := <[path := content]> (files w);
                       uuid_log := uuid_log w |}).

(** [fld.mkdir(parents=True, exist_ok=True)] *)
Definition mkdir (env : Env) (path : list string) : M unit :=
  if write_fails env path then raise OSError else mret tt.

(* ================================================================= *)
(** ** Member table *)

Definition fetch_member (env : Env) (ffnum : option string)
    : M (option Member.row) :=
  execute env SelectMember;;
  gets (λ w, select_member Member.FFNUM ffnum (pending (db w))).

Definition store_member (env : Env) (ffnum : option string)
    (emailaddr title fname lname tier : option string) : M unit :=
  execute env SelectMemberExists;;
  found ← gets (λ w, select_member Member.FFNUM ffnum (pending (db w)));
  match found with
  | Some _ => mret tt
  | None =>
      execute env InsertMember;;
      modify (set_db (set_pending (insert_member
        (member_row_of ffnum emailaddr title fname lname tier))))
  end.

Definition fetch_member_by_email (env : Env) (emailaddr : option string)
    : M (option Member.row) :=
  execute env SelectMemberByEmail;;
  gets (λ w, select_member Member.EMAIL emailaddr (pending (db w))).

(* ================================================================= *)
(** ** Ticket number *)

Definition next_ticket_number (env : Env) : M Z :=
  execute env SetIsolationAlloc;;
  execute env SelectMax;;
  gets (λ w, next_ticket_number_of (cms (pending (db w)))).

(* ================================================================= *)
(** ** UUID log *)

Definition log_uuid (env : Env) (ticket_no : Z) (uid : string) : M unit :=
  if write_fails env ["ticket_uuids.json"] then raise OSError
  else modify (λ w, {| ATTACH_DIR := ATTACH_DIR w; db := db w;
                       files := files w;
                       uuid_log := <[Str.of_Z ticket_no := uid]> (uuid_log w) |}).

(* ================================================================= *)
(** ** File saving *)

Definition save_attachment (env : Env) (part : Message) (uid : string)
    (ticket_no : Z) : M (option (list string)) :=
  let fn := or_empty (get_filename part) in
  if negb (Str.truthy fn) then mret None
  else
    let safe := sanitize_filename fn ticket_no in
    dir ← gets ATTACH_DIR;
    let fld := dir ++ [Str.of_Z ticket_no] in
    mkdir env fld;;
    let path := fld ++ [safe] in
    match get_payload part with
    | Some bytes => write_file env path bytes;; mret (Some path)
    | None =>
        (* [open] has created the file when [fh.write(None)] raises *)
        write_file env path "";; raise TypeError
    end.

Definition extract_and_save_body (env : Env) (msg : Message)
    (ticket_number : Z) (ffnum : option string) : M (list string) :=
  member ← (if truthy_opt ffnum then fetch_member env ffnum else mret None);
  match enriched_document msg ffnum member with
  | None => raise ReError
  | Some body_content =>
      dir ← gets ATTACH_DIR;
      let path := dir ++ [Str.of_Z ticket_number +:+ ".html"] in
      write_file env path body_content;;
      mret path
  end.

(* ================================================================= *)
(** ** CMS inserts *)

Definition store_undelivered_email (env : Env) (sender reason : option string)
    : M unit :=
  execute env InsertUndelivered;;
  modify (set_db (set_pending (insert_undelivered
    (undelivered_row_of sender (now env) reason)))).

Definition store_in_cms (env : Env) (vals : Vals.t) : M unit :=
  execute env InsertCms;;
  modify (set_db (set_pending (insert_cms (cms_row_of vals)))).

Definition commit (env : Env) : M unit :=
  execute env Commit;; modify (set_db db_commit).

(** [db.rollback()] is taken to succeed. *)
Definition rollback : M unit := modify (set_db db_rollback).

(* ================================================================= *)
(** ** POP3 helpers *)

(** [line.strip().split()]: the maximal runs of characters that are not
    white space; [cur] is the run being read, if any. *)
Fixpoint split_ws (cur : option string) (s : string) : list string :=
  match s with
  | "" => option_list cur
  | String c s' =>
      if Str.isspace c then option_list cur ++ split_ws None s'
      else split_ws (Some (or_empty cur +:+ String c "")) s'
  end.

(** [str.isdigit] on one character: the decimal digits and the
    superscripts one, two and three. *)
Definition isdigit_char (c : ascii) : bool :=
  let n := nat_of_ascii c in
  ((48 <=? n) && (n <=? 57) || (n =? 178) || (n =? 179) || (n =? 185))%nat.

Definition isdigit (s : string) : bool :=
  Str.truthy s && Str.forallb isdigit_char s.

(** [int(s)] for a text that passed [isdigit]: [None] stands for the
    [ValueError] raised on a superscript digit. *)
Fixpoint int_of_digits (acc : Z) (s : string) : option Z :=
  match s with
  | "" => Some acc
  | String c s' =>
      if is_digit c then int_of_digits (10 * acc + Z.of_nat (digit_val c)) s'
      else None
  end.

(** The loop of [get_uidl_map] over the listing. *)
Fixpoint uidl_lines (listings : list string) (idx_to_uid : gmap Z string)
    : option (gmap Z string) :=
  match listings with
  | [] => Some idx_to_uid
  | line :: rest =>
      match split_ws None line with
      | p0 :: p1 :: _ =>
          if isdigit p0 then
            match int_of_digits 0 p0 with
            | Some i => uidl_lines rest (<[i := p1]> idx_to_uid)
            | None => None
            end
          else uidl_lines rest idx_to_uid
      | _ => uidl_lines rest idx_to_uid
      end
  end.

(** [listings] is what [pop_conn.uidl()] answers, [None] when it raises;
    the result is [None] when [get_uidl_map] raises. *)
Definition get_uidl_map (listings : option (list string))
    : option (gmap Z string) :=
  match listings with
  | Some ls => uidl_lines ls ∅
  | None => None
  end.

(* ================================================================= *)
(** ** Email processing *)

(** [ATTACH_DIR.name]: the last component of the path. *)
Definition path_name (p : list string) : string := List.last p "".

(** The [for part in msg.walk()] loop that ends [process_email]. *)
Fixpoint save_attachments (env : Env) (parts : list Message) (tno : Z)
    : M unit :=
  match parts with
  | [] => mret tt
  | part :: rest =>
      (if truthy_opt (get_filename part) then
         try_except (save_attachment env part (uuid env) tno;; mret tt)
                    (λ _, mret tt)
       else mret tt);;
      save_attachments env rest tno
  end.

(** The keyword arguments [process_email] passes to [store_in_cms]. *)
Definition ticket_vals (env : Env) (tno : Z) (ff : option string)
    (subj sender body_path_db tier : string) : Vals.t :=
  {| Vals.tkt_no := tno;
     Vals.ffnum := ff;
     Vals.Req_Date := Some (today env);
     Vals.Category := Some "General";
     Vals.Subject := Some subj;
     Vals.cstatus := Some "N";
     Vals.UpdateDate := Some (today env);
     Vals.UpdateBy := Some "";
     Vals.fwd_to := None;
     Vals.fwd_date := None;
     Vals.fwd_remarks := None;
     Vals.fwd_by := None;
     Vals.attachments := Some body_path_db;
     Vals.email := Some sender;
     Vals.TopCategory := Some "";
     Vals.CorporateDetails := None;
     Vals.urgent := Some "No";
     Vals.Req_By := Some (fit (Some (Str.before "@" sender)) 25);
     Vals.PointsExp := Some "";
     Vals.tier := Some tier;
     Vals.download_datetime := Some (now env);
     Vals.hitit_ref_no := None |}.

(** The body of the [try] block of [process_email]. *)
Definition ticket_transaction (env : Env) (msg : Message)
    (ff : option string) (subj sender tier : string) : M Z :=
  tno ← next_ticket_number env;
  body_path_fs ← extract_and_save_body env msg tno ff;
  dir ← gets ATTACH_DIR;
  let body_path_db :=
    fit (Some (path_name dir +:+ "/" +:+ Str.of_Z tno +:+ ".html")) 100 in
  store_in_cms env (ticket_vals env tno ff subj sender body_path_db tier);;
  commit env;;
  mret tno.

(** The [try] block as [process_email] enters it, [member_info] being the
    member row found for the sender. *)
Definition try_block (env : Env) (msg : Message)
    (member_info : option Member.row) : M Z :=
  let sender := hdr_sender (headers msg) in
  let subj := hdr_subject (headers msg) in
  let ff := member_info ≫= Member.FFNUM in
  let tier := match member_info with
              | Some m => fit (Member.tier m) 1
              | None => ""
              end in
  ticket_transaction env msg ff subj sender tier.

Definition process_email (env : Env) (msg : Message) : M (bool * option Z) :=
  let sender := hdr_sender (headers msg) in
  if is_undelivered msg then
    store_undelivered_email env (Some sender) (Some "Undelivered Mail/Return");;
    mret (true, None)
  else
    member_info ← fetch_member_by_email env (Some sender);
    execute env SetIsolation;;
    tno ← try_except (try_block env msg member_info)
                     (λ e, rollback;; raise e);
    save_attachments env (walk msg) tno;;
    log_uuid env tno (uuid env);;
    mret (true, Some tno).

(* ================================================================= *)
(** ** Entry point

    The run is modelled from the point where both connections are open
    and [pop_conn.list()] has answered with [msg_count] messages. *)

(** The variables the loop of [main] changes: the process state, the
    [seen] set, and the messages marked for deletion on the server. *)
Record Run := mkRun {
  world : World;
  seen : gset string;
  deleted : gset Z;
}.

Definition with_world (st : Run) (w : World) : Run :=
  {| world := w; seen := seen st; deleted := deleted st |}.

(** [uid and uid in seen] *)
Definition uid_seen (uid : option string) (seen : gset string) : bool :=
  match uid with
  | Some u => Str.truthy u && bool_decide (u ∈ seen)
  | None => false
  end.

(** [if uid: seen.add(uid)] *)
Definition mark_seen (uid : option string) (seen : gset string) : gset string :=
  match uid with
  | Some u => if Str.truthy u then {[u]} ∪ seen else seen
  | None => seen
  end.

(** One turn of [for i in range(1, msg_count + 1)]. *)
Definition loop_body (envs : Z → Env) (idx_to_uid : gmap Z string)
    (st : Run) (i : Z) : Run :=
  let env := envs i in
  let uid := idx_to_uid !! i in
  if uid_seen uid (seen st) then st
  else
    match retr env with
    | None => st
    | Some msg =>
        match process_email env msg (world st) with
        | (Returned (ok, tno), w') =>
            if ok then
              if dele_fails env then with_world st w'
              else {| world := w';
                      seen := mark_seen uid (seen st);
                      deleted := {[i]} ∪ deleted st |}
            else with_world st w'
        | (Raised _, w') => with_world st w'
        end
    end.

Definition main_loop (envs : Z → Env) (idx_to_uid : gmap Z string)
    (st : Run) (indices : list Z) : Run :=
  foldl (loop_body envs idx_to_uid) st indices.

(** [load_seen_uidls]: the identifiers listed in [seen_uidls.json]; the
    empty set when the file is missing or unreadable ([None]). *)
Definition load_seen_uidls (file : option (list string)) : gset string :=
  match file with
  | Some ids => list_to_set ids
  | None => ∅
  end.

(** [save_seen_uidls]: the list written to [seen_uidls.json]. *)
Definition save_seen_uidls (seen : gset string) : list string :=
  merge_sort String.le (elements seen).

(** [main] from the UIDL request on: [listings] is the answer to
    [pop_conn.uidl()], [seen_file] the content of [seen_uidls.json]. The
    result holds the set handed to [save_seen_uidls], the database after
    [db.close()], and the messages the server removes at [quit()]. *)
Definition main (listings : option (list string)) (msg_count : Z)
    (envs : Z → Env) (seen_file : option (list string)) (w : World) : Run :=
  let idx_to_uid := default ∅ (get_uidl_map listings) in
  let seen := load_seen_uidls seen_file in
  let st := main_loop envs idx_to_uid
              {| world := w; seen := seen; deleted := ∅ |}
              (seqZ 1 msg_count) in
  with_world st (set_db db_close (world st)).

(* ================================================================= *)
(** ** Vocabulary of the statements *)

(** [needle] occurs in [s]. *)
Definition occurs_in (needle s : string) : Prop :=
  ∃ pre post, s = pre +:+ needle +:+ post.

(** [s] contains one of the fixed phrases, whatever the case of its
    letters. *)
Definition mentions_phrase (s : string) : Prop :=
  ∃ n u, n ∈ needles ∧ occurs_in u s ∧ Str.lower u = n.

(** [m] is the greatest value of a column, [NULL]s apart. *)
Definition is_max (m : Z) (col : list (option Z)) : Prop :=
  Some m ∈ col ∧ ∀ k, Some k ∈ col → k ≤ m.

(** [stored] is the value [v] cut to its first [limit] characters. *)
Definition prefix_cut (limit : nat) (v : option string) (stored : string)
    : Prop :=
  (∃ rest, or_empty v = stored +:+ rest)
  ∧ String.length stored = Nat.min limit (String.length (or_empty v)).

Definition starts_with_space (s : string) : bool :=
  match s with String c _ => Str.isspace c | "" => false end.

(** Every white space character of [s] is one space, and no two of them
    are neighbours. *)
Fixpoint ws_collapsed (s : string) : bool :=
  match s with
  | "" => true
  | String c s' =>
      (if Str.isspace c then Ascii.eqb c " " && negb (starts_with_space s')
       else true) && ws_collapsed s'
  end.

Definition starts_with (p s : string) : Prop := ∃ rest, s = p +:+ rest.

(** The member row [fetch_member_by_email] finds for the sender. *)
Definition sender_member (msg : Message) (w : World) : option Member.row :=
  select_member Member.EMAIL (Some (hdr_sender (headers msg)))
    (pending (db w)).

(** The record [process_email] inserts for a bounce. *)
Definition bounce_row (env : Env) (msg : Message) : Undelivered.row :=
  undelivered_row_of (Some (hdr_sender (headers msg))) (now env)
    (Some "Undelivered Mail/Return").

(** The ticket numbers on file, and their being pairwise distinct in
    what is committed as in what the open transaction sees. *)
Definition ticket_numbers (t : Tables) : list (option Z) :=
  Cms.tkt_no <$> cms t.

Definition numbers_distinct (d : Db) : Prop :=
  NoDup (ticket_numbers (committed d)) ∧ NoDup (ticket_numbers (pending d)).

(** [os.path.splitext(s)[1]] *)
Definition extension (s : string) : string := snd (splitext s).

(** The prefix [f"{ticket_no}_"] of a stored file name. *)
Definition ticket_prefix (ticket_no : Z) : string :=
  Str.of_Z ticket_no +:+ "_".

(** A part the body scan of the classifier reads: a text part whose
    payload decodes. *)
Definition readable_text (part : Message) (txt : string) : Prop :=
  (get_content_type part = "text/plain" ∨ get_content_type part = "text/html")
  ∧ decoded_text part = Some txt.

(** Character classes used in the statements about file names. *)
Definition is_number_char (c : ascii) : bool :=
  is_digit c || Ascii.eqb c "-" || Ascii.eqb c "_".

Definition legal (c : ascii) : bool := negb (is_illegal c).
Definition not_space (c : ascii) : bool := negb (Str.isspace c).
Definition not_char (x c : ascii) : bool := negb (Ascii.eqb c x).

(* ================================================================= *)
(** ** Sample data *)

Fixpoint replicate_char (n : nat) (c : ascii) : string :=
  match n with O => "" | S n' => String c (replicate_char n' c) end.

Definition world0 : World :=
  {| ATTACH_DIR := ["attachments"];
     db := {| committed := mkTables [] [] []; pending := mkTables [] [] [] |};
     files := ∅; uuid_log := ∅ |}.

Definition plain_headers (sender subject : string) : Headers :=
  mkHeaders sender subject "text/plain" None.

(** Scenario B of the specification. *)
Definition bounce_msg : Message :=
  Leaf (plain_headers "postmaster@b.com" "Mail Delivery Failed: returned message")
       "see attachment" (Some "see attachment").

Definition hello_msg : Message :=
  Leaf (plain_headers "a@b.com" "Hello") "Hi there" (Some "Hi there").

Definition second_msg : Message :=
  Leaf (plain_headers "c@d.com" "Second") "Again" (Some "Again").

(** A message that is one HTML part. *)
Definition html_only_msg : Message :=
  Leaf (mkHeaders "a@b.com" "Hello" "text/html" None)
       "<p>Hi</p>" (Some "<p>Hi</p>").

(** The same part inside a multipart message. *)
Definition html_in_multipart_msg : Message :=
  Multipart (mkHeaders "a@b.com" "Hello" "multipart/mixed" None)
    [html_only_msg].

(** Two plain-text parts: a body and a text attachment. *)
Definition two_plain_msg : Message :=
  Multipart (mkHeaders "a@b.com" "Hello" "multipart/mixed" None)
    [Leaf (mkHeaders "" "" "text/plain" None) "the body" (Some "the body");
     Leaf (mkHeaders "" "" "text/plain" (Some "notes.txt"))
          "the attachment" (Some "the attachment")].

(** Nothing outside the process fails. *)
Definition calm (msg : Message) : Env :=
  {| stmt_fails := λ _, false; write_fails := λ _, false;
     retr := Some msg; dele_fails := false;
     today := 20000; now := 1728000000; uuid := "u-0" |}.

(** The [INSERT] into [dbo.cms] raises. *)
Definition insert_breaks (msg : Message) : Env :=
  {| stmt_fails := λ s, match s with InsertCms => true | _ => false end;
     write_fails := λ _, false;
     retr := Some msg; dele_fails := false;
     today := 20000; now := 1728000000; uuid := "u-0" |}.

(** A file name of 150 letters and an extension of 17 characters. *)
Definition long_name : string :=
  replicate_char 150 "a" +:+ ".abcdefghijklmnop".

(* ================================================================= *)
(** * Properties *)

(** ** Strings *)

#[local] Arguments String.append !_ _ / : simpl nomatch.

Section StrFacts.
Implicit Types (s t u : string) (c : ascii) (n : nat) (p : ascii → bool).

Lemma app_nil_r s : s +:+ "" = s.
Proof. induction s as [|c s IH]; simpl; [done | by rewrite IH]. Qed.

Lemma app_assoc s t u : (s +:+ t) +:+ u = s +:+ t +:+ u.
Proof. induction s as [|c s IH]; simpl; [done | by rewrite IH]. Qed.

Lemma length_app s t :
  String.length (s +:+ t) = (String.length s + String.length t)%nat.
Proof. induction s as [|c s IH]; simpl; [done | by rewrite IH]. Qed.

Lemma length_take n s :
  String.length (Str.take n s) = Nat.min n (String.length s).
Proof.
  revert s; induction n as [|n IH]; intros [|c s]; simpl; try done.
  by rewrite IH.
Qed.

Lemma take_drop n s : Str.take n s +:+ Str.drop n s = s.
Proof.
  revert s; induction n as [|n IH]; intros [|c s]; simpl; try done.
  by rewrite IH.
Qed.

Lemma take_all n s : (String.length s ≤ n)%nat → Str.take n s = s.
Proof.
  revert s; induction n as [|n IH]; intros [|c s] H; simpl in *;
    try done; try lia.
  rewrite IH; [done | lia].
Qed.

Lemma take_app_le n s t :
  (n ≤ String.length s)%nat → Str.take n (s +:+ t) = Str.take n s.
Proof.
  revert s; induction n as [|n IH]; intros [|c s] H; simpl in *;
    try done; try lia.
  rewrite IH; [done | lia].
Qed.

Lemma take_app_ge n s t :
  (String.length s ≤ n)%nat →
  Str.take n (s +:+ t) = s +:+ Str.take (n - String.length s) t.
Proof.
  revert n; induction s as [|c s IH]; intros n H; simpl in *.
  - by rewrite Nat.sub_0_r.
  - destruct n as [|n]; [lia |]. simpl. rewrite IH; [done | lia].
Qed.

Lemma forallb_app p s t :
  Str.forallb p (s +:+ t) = Str.forallb p s && Str.forallb p t.
Proof.
  induction s as [|c s IH]; simpl; [done |].
  by rewrite IH, andb_assoc.
Qed.

Lemma forallb_take p n s :
  Str.forallb p s = true → Str.forallb p (Str.take n s) = true.
Proof.
  revert s; induction n as [|n IH]; intros [|c s]; simpl; try done.
  intros [Hc Hs]%andb_true_iff. rewrite Hc. by apply IH.
Qed.

Lemma forallb_drop p n s :
  Str.forallb p s = true → Str.forallb p (Str.drop n s) = true.
Proof.
  revert s; induction n as [|n IH]; intros [|c s]; simpl; try done.
  intros [Hc Hs]%andb_true_iff. by apply IH.
Qed.

Lemma forallb_impl p (q : ascii → bool) s :
  (∀ c, p c = true → q c = true) →
  Str.forallb p s = true → Str.forallb q s = true.
Proof.
  intros Hpq. induction s as [|c s IH]; simpl; [done |].
  intros [Hc Hs]%andb_true_iff. by rewrite (Hpq _ Hc), IH.
Qed.

Lemma forallb_filter p s : Str.forallb p (Str.filter p s) = true.
Proof.
  induction s as [|c s IH]; simpl; [done |].
  destruct (p c) eqn:Hc; simpl; [by rewrite Hc |done].
Qed.

Lemma filter_app p s t :
  Str.filter p (s +:+ t) = Str.filter p s +:+ Str.filter p t.
Proof.
  induction s as [|c s IH]; simpl; [done |].
  destruct (p c); simpl; by rewrite IH.
Qed.

Lemma filter_id p s : Str.forallb p s = true → Str.filter p s = s.
Proof.
  induction s as [|c s IH]; simpl; [done |].
  intros [Hc Hs]%andb_true_iff. by rewrite Hc, IH.
Qed.

Lemma map_app (f : ascii → ascii) s t :
  Str.map f (s +:+ t) = Str.map f s +:+ Str.map f t.
Proof. induction s as [|c s IH]; simpl; [done | by rewrite IH]. Qed.

(** A split of the image of [s] comes from a split of [s]. *)
Lemma map_app_inv (f : ascii → ascii) s a b :
  Str.map f s = a +:+ b →
  ∃ a' b', s = a' +:+ b' ∧ Str.map f a' = a ∧ Str.map f b' = b.
Proof.
  revert s; induction a as [|c a IH]; intros s H; simpl in *.
  - by exists "", s.
  - destruct s as [|d s]; simpl in H; [done |].
    injection H as Hc Hs. destruct (IH _ Hs) as (a' & b' & -> & Ha & Hb).
    exists (String d a'), b'. simpl. by rewrite Ha, Hc.
Qed.

Lemma prefix_spec s t :
  String.prefix s t = true ↔ ∃ post, t = s +:+ post.
Proof.
  revert t; induction s as [|c s IH]; intros t; simpl.
  - split; [intros _; by exists t | by destruct t].
  - destruct t as [|d t]; simpl.
    + split; [done | by intros [post ?]].
    + destruct (ascii_dec c d) as [->|Hne].
      * rewrite IH. split; intros [post H]; exists post; congruence.
      * split; [done | intros [post H]; congruence].
Qed.

Lemma contains_unfold needle s :
  Str.contains needle s =
    String.prefix needle s
    || match s with "" => false | String _ s' => Str.contains needle s' end.
Proof. by destruct s. Qed.

Lemma contains_spec needle s :
  Str.contains needle s = true ↔ occurs_in needle s.
Proof.
  unfold occurs_in. induction s as [|c s IH]; rewrite contains_unfold.
  - rewrite orb_false_r, prefix_spec. split.
    + intros [post H]. by exists "", post.
    + intros ([|??] & post & H); simpl in H; [by exists post | done].
  - rewrite orb_true_iff, prefix_spec, IH. split.
    + intros [[post H] | (pre & post & H)].
      * by exists "", post.
      * exists (String c pre), post. simpl. by rewrite H.
    + intros ([|d pre] & post & H); simpl in H.
      * left. by exists post.
      * right. exists pre, post. congruence.
Qed.

End StrFacts.

(* ================================================================= *)
(** ** Bounce classifier *)

Lemma any_needle_in_lower s :
  any_needle_in (Str.lower s) = true ↔ mentions_phrase s.
Proof.
  unfold any_needle_in, mentions_phrase. rewrite existsb_exists. split.
  - intros (n & Hn & Hc). apply contains_spec in Hc as (pre & post & Hs).
    apply map_app_inv in Hs as (a & rest & -> & Ha & Hrest).
    apply map_app_inv in Hrest as (u & b & -> & Hu & Hb).
    exists n, u. split; [by apply list_elem_of_In |]. split; [| done].
    by exists a, b.
  - intros (n & u & Hn & (pre & post & ->) & Hu).
    exists n. split; [by apply list_elem_of_In |].
    apply contains_spec. exists (Str.lower pre), (Str.lower post).
    unfold Str.lower in *. by rewrite !map_app, Hu.
Qed.

Lemma is_text_type_spec ctype :
  is_text_type ctype = true ↔ ctype = "text/plain" ∨ ctype = "text/html".
Proof.
  unfold is_text_type. by rewrite orb_true_iff, !String.eqb_eq.
Qed.

Lemma scan_parts_spec parts :
  scan_parts parts = true ↔
  ∃ part txt, part ∈ parts ∧ readable_text part txt ∧ mentions_phrase txt.
Proof.
  induction parts as [|p rest IH]; simpl.
  - split; [done | intros (? & ? & H%elem_of_nil & _); done].
  - assert ((∃ part txt, part ∈ rest ∧ readable_text part txt
                         ∧ mentions_phrase txt) →
            ∃ part txt, part ∈ p :: rest ∧ readable_text part txt
                        ∧ mentions_phrase txt) as Hweak.
    { intros (q & t & Hq & H). exists q, t. split; [by right | done]. }
    destruct (is_text_type (get_content_type p)) eqn:Ht.
    + destruct (decoded_text p) as [txt|] eqn:Hd.
      * destruct (any_needle_in (Str.lower txt)) eqn:Hn.
        -- split; [intros _ | done]. exists p, txt.
           split; [left |]. split; [| by apply any_needle_in_lower].
           split; [by apply is_text_type_spec | done].
        -- rewrite IH. split; [done |].
           intros (q & t & Hin & Hr & Hm).
           apply elem_of_cons in Hin as [-> | Hin]; [| by exists q, t].
           destruct Hr as [_ Hdq]. rewrite Hd in Hdq. injection Hdq as ->.
           apply any_needle_in_lower in Hm. congruence.
      * rewrite IH. split; [done |].
        intros (q & t & Hin & Hr & Hm).
        apply elem_of_cons in Hin as [-> | Hin]; [| by exists q, t].
        destruct Hr as [_ Hdq]. congruence.
    + rewrite IH. split; [done |].
      intros (q & t & Hin & Hr & Hm).
      apply elem_of_cons in Hin as [-> | Hin]; [| by exists q, t].
      destruct Hr as [Hty _]. apply is_text_type_spec in Hty. congruence.
Qed.

(** C6. [is_undelivered] answers true exactly when the subject, or the
    decoded text of some text/plain or text/html part met by [walk],
    contains one of the six phrases in any letter case; otherwise it
    answers false. *)
Theorem is_undelivered_iff (msg : Message) :
  let matches :=
    mentions_phrase (hdr_subject (headers msg))
    ∨ ∃ part txt, part ∈ walk msg ∧ readable_text part txt
                  ∧ mentions_phrase txt in
  (is_undelivered msg = true ↔ matches)
  ∧ (is_undelivered msg = false ↔ ¬ matches).
Proof.
  assert (is_undelivered msg = true ↔
          mentions_phrase (hdr_subject (headers msg))
          ∨ ∃ part txt, part ∈ walk msg ∧ readable_text part txt
                        ∧ mentions_phrase txt) as Hiff.
  { unfold is_undelivered.
    destruct (any_needle_in (Str.lower (hdr_subject (headers msg)))) eqn:Hs.
    - split; [intros _; left; by apply any_needle_in_lower | done].
    - rewrite scan_parts_spec. split; [by right |].
      intros [Hm | H]; [| done].
      apply any_needle_in_lower in Hm. congruence. }
  simpl. split; [done |].
  rewrite <- Hiff. by destruct (is_undelivered msg).
Qed.

(** The fixed phrases are six. *)
Lemma needles_six :
  needles = ["undelivered"; "return to sender"; "mail delivery failed";
             "delivery status notification"; "mailer-daemon"; "bounce"].
Proof. reflexivity. Qed.

(** Scenario B: the subject alone makes the message a bounce. *)
Example bounce_msg_is_undelivered : is_undelivered bounce_msg = true.
Proof. reflexivity. Qed.

Example hello_msg_is_a_request : is_undelivered hello_msg = false.
Proof. reflexivity. Qed.

(* ================================================================= *)
(** ** Ticket number *)

Lemma sql_max_None col : sql_max col = None ↔ ∀ k, Some k ∉ col.
Proof.
  induction col as [|[v|] rest IH]; simpl.
  - split; [intros _ k H; by apply elem_of_nil in H | done].
  - split.
    + by destruct (sql_max rest).
    + intros H. exfalso. apply (H v). by left.
  - rewrite IH. split.
    + intros H k [? | ?]%elem_of_cons; [done | by apply (H k)].
    + intros H k Hk. apply (H k). by right.
Qed.

Lemma sql_max_Some col m : sql_max col = Some m ↔ is_max m col.
Proof.
  unfold is_max. revert m. induction col as [|[v|] rest IH]; intros m; simpl.
  - split; [done | intros [H%elem_of_nil _]; done].
  - destruct (sql_max rest) as [m'|] eqn:Hr.
    + destruct (IH m') as [[Hin Hle] _]; [done |]. split.
      * intros [= <-]. split.
        -- destruct (Z.max_spec v m') as [[_ ->] | [_ ->]]; [by right | by left].
        -- intros k [[= ->] | Hk]%elem_of_cons; [lia |].
           specialize (Hle k Hk). lia.
      * intros [Hm Hall]. f_equal.
        assert (v ≤ m) by (apply Hall; by left).
        assert (m' ≤ m) by (apply Hall; by right).
        apply elem_of_cons in Hm as [[= ->] | Hm]; [lia |].
        specialize (Hle m Hm). lia.
    + pose proof (proj1 (sql_max_None rest) Hr) as Hnone. split.
      * intros [= <-]. split; [by left |].
        intros k [[= ->] | Hk]%elem_of_cons; [lia | by apply Hnone in Hk].
      * intros [[[= ->] | Hm]%elem_of_cons _]; [done | by apply Hnone in Hm].
  - rewrite IH. split; intros [Hm Hall]; split.
    + by right.
    + intros k [? | ?]%elem_of_cons; [done | by apply Hall].
    + by apply elem_of_cons in Hm as [? | ?].
    + intros k Hk. apply Hall. by right.
Qed.

Lemma next_ticket_number_of_spec rows :
  next_ticket_number_of rows =
    match sql_max (Cms.tkt_no <$> rows) with
    | Some m => m + 1
    | None => 1
    end.
Proof.
  unfold next_ticket_number_of, sql_isnull, or_zero.
  destruct (sql_max _) as [m|]; simpl; [| done].
  destruct (Z.eqb_spec m 0) as [-> |]; done.
Qed.

Lemma next_ticket_number_of_above rows k :
  Some k ∈ Cms.tkt_no <$> rows → k < next_ticket_number_of rows.
Proof.
  intros Hin. rewrite next_ticket_number_of_spec.
  destruct (sql_max _) as [m|] eqn:Hm.
  - apply sql_max_Some in Hm as [_ Hle]. specialize (Hle k Hin). lia.
  - by apply (proj1 (sql_max_None _) Hm) in Hin.
Qed.

(** C1. Provided its two statements go through, [next_ticket_number]
    returns, leaves the state as it is, and its value is above every
    ticket number of the table: one more than the greatest of them, and 1
    when the table is empty. *)
Theorem next_ticket_number_above_max (env : Env) (w : World) :
  stmt_fails env SetIsolationAlloc = false →
  stmt_fails env SelectMax = false →
  let table := cms (pending (db w)) in
  ∃ n, next_ticket_number env w = (Returned n, w)
       ∧ (∀ r k, r ∈ table → Cms.tkt_no r = Some k → k < n)
       ∧ (∀ m, is_max m (Cms.tkt_no <$> table) → n = m + 1)
       ∧ (table = [] → n = 1).
Proof.
  intros H1 H2 table.
  exists (next_ticket_number_of table). split; [| split; [| split]].
  - unfold next_ticket_number, execute. cbv [mbind M_bind]. by rewrite H1, H2.
  - intros r k Hr Hk. apply next_ticket_number_of_above.
    rewrite <- Hk. by apply list_elem_of_fmap_2.
  - intros m Hm%sql_max_Some. by rewrite next_ticket_number_of_spec, Hm.
  - intros ->. reflexivity.
Qed.

(** On the empty table the first number is 1. *)
Lemma next_ticket_number_above_max_witness :
  ∃ n, next_ticket_number (calm hello_msg) world0 = (Returned n, world0)
       ∧ n = 1.
Proof.
  destruct (next_ticket_number_above_max (calm hello_msg) world0
              eq_refl eq_refl) as (n & Hn & _ & _ & H1).
  exists n. split; [exact Hn | by apply H1].
Defined.

(* ================================================================= *)
(** ** Field limits *)

Lemma fit_cut (v : option string) (n : Z) :
  0 ≤ n → prefix_cut (Z.to_nat n) v (fit v n).
Proof.
  intros Hn. unfold prefix_cut, fit, Str.slice_to.
  destruct (Z.leb_spec 0 n); [| lia]. split.
  - exists (Str.drop (Z.to_nat n) (or_empty v)). by rewrite take_drop.
  - apply length_take.
Qed.

(** A value longer than the limit is stored with exactly [limit]
    characters, a shorter one as it is. *)
Lemma prefix_cut_length limit v stored :
  prefix_cut limit v stored →
  ((limit < String.length (or_empty v))%nat → String.length stored = limit)
  ∧ ((String.length (or_empty v) ≤ limit)%nat → stored = or_empty v).
Proof.
  intros [[rest Hrest] Hlen]. split; intros H; [lia |].
  assert (String.length rest = 0%nat) as Hr.
  { rewrite Hrest, length_app in Hlen. rewrite Hrest, length_app in H. lia. }
  destruct rest; [| done]. by rewrite Hrest, app_nil_r.
Qed.

Lemma store_in_cms_unfold env vals w :
  store_in_cms env vals w =
    if stmt_fails env InsertCms then (Raised DatabaseError, w)
    else (Returned tt, set_db (set_pending (insert_cms (cms_row_of vals))) w).
Proof.
  unfold store_in_cms, execute. cbv [mbind M_bind].
  by destruct (stmt_fails env InsertCms).
Qed.

Lemma store_undelivered_email_unfold env sender reason w :
  store_undelivered_email env sender reason w =
    if stmt_fails env InsertUndelivered then (Raised DatabaseError, w)
    else (Returned tt,
          set_db (set_pending (insert_undelivered
            (undelivered_row_of sender (now env) reason))) w).
Proof.
  unfold store_undelivered_email, execute. cbv [mbind M_bind].
  by destruct (stmt_fails env InsertUndelivered).
Qed.

Lemma store_member_unfold env ffnum emailaddr title fname lname tier w :
  store_member env ffnum emailaddr title fname lname tier w =
    if stmt_fails env SelectMemberExists then (Raised DatabaseError, w)
    else match select_member Member.FFNUM ffnum (pending (db w)) with
         | Some _ => (Returned tt, w)
         | None =>
             if stmt_fails env InsertMember then (Raised DatabaseError, w)
             else (Returned tt,
                   set_db (set_pending (insert_member
                     (member_row_of ffnum emailaddr title fname lname tier))) w)
         end.
Proof.
  unfold store_member, execute. cbv [mbind M_bind gets].
  destruct (stmt_fails env SelectMemberExists); [done |]. simpl.
  destruct (select_member _ _ _); [done |].
  by destruct (stmt_fails env InsertMember).
Qed.

(** C8. Every limited column of the rows the program inserts holds the
    prefix of the given value of the column's length limit (the whole value
    when it is shorter), and the row is handed to the [INSERT] whatever
    the lengths are: no value is refused or left out for its length. *)
Theorem persisted_fields_are_prefix_cuts (env : Env) (vals : Vals.t)
    (ffnum emailaddr title fname lname tier sender reason : option string)
    (w : World) :
  let r := cms_row_of vals in
  let m := member_row_of ffnum emailaddr title fname lname tier in
  let u := undelivered_row_of sender (now env) reason in
  (prefix_cut 250 (Vals.ffnum vals) (Cms.ffnum r)
   ∧ prefix_cut 50 (Vals.Category vals) (Cms.Category r)
   ∧ prefix_cut 1600 (Vals.Subject vals) (Cms.Subject r)
   ∧ prefix_cut 1 (Vals.cstatus vals) (Cms.cstatus r)
   ∧ prefix_cut 50 (Vals.UpdateBy vals) (Cms.UpdateBy r)
   ∧ prefix_cut 50 (Vals.fwd_to vals) (Cms.fwd_to r)
   ∧ prefix_cut 250 (Vals.fwd_remarks vals) (Cms.fwd_remarks r)
   ∧ prefix_cut 50 (Vals.fwd_by vals) (Cms.fwd_by r)
   ∧ prefix_cut 100 (Vals.attachments vals) (Cms.attachments r)
   ∧ prefix_cut 200 (Vals.email vals) (Cms.email r)
   ∧ prefix_cut 30 (Vals.TopCategory vals) (Cms.TopCategory r)
   ∧ prefix_cut 12 (Vals.CorporateDetails vals) (Cms.CorporateDetails r)
   ∧ prefix_cut 5 (Vals.urgent vals) (Cms.urgent r)
   ∧ prefix_cut 25 (Vals.Req_By vals) (Cms.Req_By r)
   ∧ prefix_cut 1 (Vals.PointsExp vals) (Cms.PointsExp r)
   ∧ prefix_cut 1 (Vals.tier vals) (Cms.tier r)
   ∧ prefix_cut 50 (Vals.hitit_ref_no vals) (Cms.hitit_ref_no r))
  ∧ (prefix_cut 200 emailaddr (or_empty (Member.EMAIL m))
     ∧ prefix_cut 50 title (or_empty (Member.TITLE m))
     ∧ prefix_cut 50 fname (or_empty (Member.FNAME m))
     ∧ prefix_cut 50 lname (or_empty (Member.LNAME m))
     ∧ prefix_cut 1 tier (or_empty (Member.tier m)))
  ∧ prefix_cut 200 sender (Undelivered.sender_email u)
  ∧ store_in_cms env vals w =
      (if stmt_fails env InsertCms then (Raised DatabaseError, w)
       else (Returned tt, set_db (set_pending (insert_cms r)) w))
  ∧ store_member env ffnum emailaddr title fname lname tier w =
      (if stmt_fails env SelectMemberExists then (Raised DatabaseError, w)
       else match select_member Member.FFNUM ffnum (pending (db w)) with
            | Some _ => (Returned tt, w)
            | None =>
                if stmt_fails env InsertMember then (Raised DatabaseError, w)
                else (Returned tt, set_db (set_pending (insert_member m)) w)
            end)
  ∧ store_undelivered_email env sender reason w =
      (if stmt_fails env InsertUndelivered then (Raised DatabaseError, w)
       else (Returned tt, set_db (set_pending (insert_undelivered u)) w)).
Proof.
  simpl.
  repeat split;
    first [ apply store_in_cms_unfold
          | apply store_member_unfold
          | apply store_undelivered_email_unfold
          | refine (proj1 (fit_cut _ _ _)); lia
          | refine (proj2 (fit_cut _ _ _)); lia ].
Qed.

(** The ticket path of [process_email] cuts what it prepares itself. *)
Example fit_over_long : fit (Some "Gold") 1 = "G".
Proof. reflexivity. Qed.

(* ================================================================= *)
(** ** File names *)

Lemma number_char_facts c :
  is_number_char c = true →
  legal c = true ∧ not_space c = true ∧ not_char "." c = true.
Proof.
  destruct c as [[] [] [] [] [] [] [] []]; vm_compute; intros H;
    first [discriminate H | done].
Qed.

Lemma legal_not_slash c : legal c = true → not_char "/" c = true.
Proof.
  destruct c as [[] [] [] [] [] [] [] []]; vm_compute; intros H;
    first [discriminate H | done].
Qed.

Lemma space_is_legal : legal " " = true.
Proof. reflexivity. Qed.

Lemma uint_chars d :
  Str.forallb is_number_char (NilEmpty.string_of_uint d) = true.
Proof. induction d; simpl; by rewrite ?IHd. Qed.

Lemma of_Z_chars n : Str.forallb is_number_char (Str.of_Z n) = true.
Proof.
  unfold Str.of_Z, NilZero.string_of_int, NilZero.string_of_uint.
  destruct (Z.to_int n) as [d | d]; destruct d; simpl;
    by rewrite ?uint_chars.
Qed.

Lemma of_Z_nonempty n : ∃ c rest, Str.of_Z n = String c rest.
Proof.
  unfold Str.of_Z, NilZero.string_of_int, NilZero.string_of_uint.
  destruct (Z.to_int n) as [d | d]; destruct d; simpl; eauto.
Qed.

Lemma ticket_prefix_chars t :
  Str.forallb is_number_char (ticket_prefix t) = true.
Proof. unfold ticket_prefix. by rewrite forallb_app, of_Z_chars. Qed.

Lemma ticket_prefix_nonempty t : ∃ c rest, ticket_prefix t = String c rest.
Proof.
  unfold ticket_prefix. destruct (of_Z_nonempty t) as (c & rest & ->).
  simpl. eauto.
Qed.

Lemma ticket_prefix_length t :
  String.length (ticket_prefix t) = S (String.length (Str.of_Z t)).
Proof. unfold ticket_prefix. rewrite length_app. simpl. lia. Qed.

(** *** White space *)

Lemma collapse_ws_forallb p b s :
  p " "%char = true →
  Str.forallb p s = true → Str.forallb p (collapse_ws b s) = true.
Proof.
  intros Hsp. revert b. induction s as [|c s IH]; intros b; simpl; [done |].
  intros [Hc Hs]%andb_true_iff.
  destruct (Str.isspace c), b; simpl; rewrite ?Hsp, ?Hc; simpl;
    by apply IH.
Qed.

Lemma lstrip_forallb p s :
  Str.forallb p s = true → Str.forallb p (Str.lstrip s) = true.
Proof.
  induction s as [|c s IH]; simpl; [done |].
  intros [Hc Hs]%andb_true_iff.
  destruct (Str.isspace c); simpl; [auto | by rewrite Hc, Hs].
Qed.

Lemma rstrip_unfold c s :
  Str.rstrip (String c s) =
    match Str.rstrip s with
    | "" => if Str.isspace c then "" else String c ""
    | r => String c r
    end.
Proof. reflexivity. Qed.

Lemma rstrip_forallb p s :
  Str.forallb p s = true → Str.forallb p (Str.rstrip s) = true.
Proof.
  induction s as [|c s IH]; [done |]. rewrite rstrip_unfold.
  simpl. intros [Hc Hs]%andb_true_iff. specialize (IH Hs).
  destruct (Str.rstrip s); [destruct (Str.isspace c) |]; simpl in *;
    by rewrite ?Hc, ?IH.
Qed.

Lemma collapse_ws_prefix p s :
  Str.forallb not_space p = true →
  collapse_ws false (p +:+ s) = p +:+ collapse_ws false s.
Proof.
  induction p as [|c p IH]; simpl; [done |].
  intros [Hc Hp]%andb_true_iff. unfold not_space in Hc.
  apply negb_true_iff in Hc. by rewrite Hc, IH.
Qed.

Lemma rstrip_prefix p s :
  Str.forallb not_space p = true →
  Str.rstrip (p +:+ s) = p +:+ Str.rstrip s.
Proof.
  induction p as [|c p IH]; [done |].
  intros H. simpl in H. apply andb_true_iff in H as [Hc Hp].
  unfold not_space in Hc. apply negb_true_iff in Hc.
  change (String c p +:+ s) with (String c (p +:+ s)).
  change (String c p +:+ Str.rstrip s) with (String c (p +:+ Str.rstrip s)).
  rewrite rstrip_unfold, (IH Hp), Hc.
  by destruct (p +:+ Str.rstrip s).
Qed.

Lemma collapse_ws_collapsed b s :
  ws_collapsed (collapse_ws b s) = true
  ∧ (b = true → starts_with_space (collapse_ws b s) = false).
Proof.
  revert b. induction s as [|c s IH]; intros b; simpl; [done |].
  destruct (Str.isspace c) eqn:Hc.
  - destruct b.
    + apply IH.
    + destruct (IH true) as [H1 H2]. simpl. split; [| done].
      rewrite H1, (H2 eq_refl). reflexivity.
  - destruct (IH false) as [H1 _]. simpl. rewrite Hc, H1. done.
Qed.

Lemma ws_collapsed_tail c s :
  ws_collapsed (String c s) = true → ws_collapsed s = true.
Proof. simpl. by intros [_ ?]%andb_true_iff. Qed.

Lemma lstrip_collapsed s :
  ws_collapsed s = true → ws_collapsed (Str.lstrip s) = true.
Proof.
  induction s as [|c s IH]; [done |]. intros H. simpl.
  destruct (Str.isspace c); [| done].
  apply IH. by apply ws_collapsed_tail in H.
Qed.

Lemma rstrip_head s d r :
  Str.rstrip s = String d r → ∃ s', s = String d s'.
Proof.
  destruct s as [|c s]; [done |]. rewrite rstrip_unfold.
  destruct (Str.rstrip s); [destruct (Str.isspace c) |];
    intros [= <- _]; eauto.
Qed.

Lemma rstrip_collapsed s :
  ws_collapsed s = true → ws_collapsed (Str.rstrip s) = true.
Proof.
  induction s as [|c s IH]; [done |]. rewrite rstrip_unfold.
  intros H. pose proof (ws_collapsed_tail _ _ H) as Hs. specialize (IH Hs).
  destruct (Str.rstrip s) as [|d r] eqn:Hr.
  - destruct (Str.isspace c) eqn:Hc; [done |]. simpl. by rewrite Hc.
  - apply rstrip_head in Hr as [s' ->].
    simpl in *. rewrite IH. apply andb_true_iff in H as [H _].
    by rewrite H.
Qed.

Lemma take_collapsed n s :
  ws_collapsed s = true → ws_collapsed (Str.take n s) = true.
Proof.
  revert s. induction n as [|n IH]; intros [|c s]; simpl; try done.
  intros [Hc Hs]%andb_true_iff. rewrite (IH _ Hs), andb_true_r.
  destruct (Str.isspace c); [| done].
  apply andb_true_iff in Hc as [-> Hn]. simpl.
  destruct n, s; simpl in *; done.
Qed.

Lemma app_collapsed s t :
  ws_collapsed s = true → ws_collapsed t = true →
  starts_with_space t = false → ws_collapsed (s +:+ t) = true.
Proof.
  intros Hs Ht Hst. induction s as [|c s IH]; simpl; [done |].
  simpl in Hs. apply andb_true_iff in Hs as [Hc Hs].
  rewrite (IH Hs), andb_true_r.
  destruct (Str.isspace c); [| done].
  apply andb_true_iff in Hc as [-> Hn]. simpl.
  destruct s; simpl in *; [by rewrite Hst | done].
Qed.

(** *** The cleaned name *)

Lemma clean_filename_shape name t :
  clean_filename name t =
    ticket_prefix t +:+ Str.rstrip (collapse_ws false (Str.filter legal name)).
Proof.
  unfold clean_filename, Str.strip.
  pose proof (ticket_prefix_chars t) as Hp.
  assert (Str.forallb not_space (ticket_prefix t) = true) as Hsp.
  { eapply forallb_impl; [| exact Hp]. intros c Hc.
    by apply number_char_facts in Hc as (_ & ? & _). }
  assert (Str.forallb legal (ticket_prefix t) = true) as Hlegal.
  { eapply forallb_impl; [| exact Hp]. intros c Hc.
    by apply number_char_facts in Hc as (? & _ & _). }
  rewrite <- app_assoc. fold (ticket_prefix t). fold legal.
  rewrite filter_app, (filter_id _ _ Hlegal), (collapse_ws_prefix _ _ Hsp).
  assert (∀ y, Str.lstrip (ticket_prefix t +:+ y) = ticket_prefix t +:+ y)
    as ->.
  { intros y. destruct (ticket_prefix_nonempty t) as (c & rest & Heq).
    rewrite Heq in Hsp |- *. simpl in Hsp |- *.
    apply andb_true_iff in Hsp as [Hc _]. unfold not_space in Hc.
    apply negb_true_iff in Hc. by rewrite Hc. }
  by apply rstrip_prefix.
Qed.

Lemma clean_filename_legal name t :
  Str.forallb legal (clean_filename name t) = true.
Proof.
  rewrite clean_filename_shape, forallb_app. apply andb_true_iff. split.
  - eapply forallb_impl; [| apply ticket_prefix_chars]. intros c Hc.
    by apply number_char_facts in Hc as (? & _ & _).
  - apply rstrip_forallb, collapse_ws_forallb; [done |].
    apply forallb_filter.
Qed.

Lemma clean_filename_collapsed name t :
  ws_collapsed (clean_filename name t) = true.
Proof.
  unfold clean_filename, Str.strip.
  apply rstrip_collapsed, lstrip_collapsed, collapse_ws_collapsed.
Qed.

(** *** [splitext] *)

Lemma drop_app_length s t : Str.drop (String.length s) (s +:+ t) = t.
Proof. induction s as [|c s IH]; simpl; [by destruct t | done]. Qed.

Lemma rfind_nat_None c s :
  Str.rfind_nat c s = None ↔ Str.forallb (not_char c) s = true.
Proof.
  unfold not_char. induction s as [|a s IH]; simpl; [done |].
  destruct (Str.rfind_nat c s).
  - split; [done |]. intros [_ H]%andb_true_iff. by apply IH in H.
  - destruct (Ascii.eqb a c); simpl; [done |]. split; [| done].
    intros _. by apply IH.
Qed.

Lemma rfind_nat_Some c s k :
  Str.rfind_nat c s = Some k →
  ∃ e, Str.drop k s = String c e ∧ Str.forallb (not_char c) e = true.
Proof.
  revert k. induction s as [|a s IH]; intros k; simpl; [done |].
  destruct (Str.rfind_nat c s) as [k'|] eqn:Hr.
  - intros [= <-]. simpl. by apply IH.
  - destruct (Ascii.eqb_spec a c) as [-> |]; [| done].
    intros [= <-]. exists s. split; [done |]. by apply rfind_nat_None.
Qed.

Lemma rfind_nat_last c a e :
  Str.forallb (not_char c) e = true →
  Str.rfind_nat c (a +:+ String c e) = Some (String.length a).
Proof.
  intros He. induction a as [|x a IH]; simpl.
  - apply rfind_nat_None in He. by rewrite He, Ascii.eqb_refl.
  - by rewrite IH.
Qed.

Lemma rfind_nat_after_prefix c p s k :
  Str.forallb (not_char c) p = true →
  Str.rfind_nat c (p +:+ s) = Some k → (String.length p ≤ k)%nat.
Proof.
  revert k. induction p as [|a p IH]; intros k; simpl; [lia |].
  intros [Ha Hp]%andb_true_iff.
  destruct (Str.rfind_nat c (p +:+ s)) as [k'|].
  - intros [= <-]. specialize (IH k' Hp eq_refl). lia.
  - unfold not_char in Ha. apply negb_true_iff in Ha. by rewrite Ha.
Qed.

(** On a name without separator, [splitext] cuts at the last dot unless
    only dots come before it. *)
Lemma splitext_no_sep p :
  Str.forallb (not_char "/") p = true →
  splitext p =
    match Str.rfind_nat "." p with
    | Some k =>
        if Str.forallb (Ascii.eqb ".") (Str.take k p) then (p, "")
        else (Str.take k p, Str.drop k p)
    | None => (p, "")
    end.
Proof.
  intros Hsep%rfind_nat_None.
  unfold splitext, splitext_generic, Str.rfind. rewrite Hsep.
  destruct (Str.rfind_nat "." p) as [k|]; [| done].
  destruct (Z.ltb_spec (-1) (Z.of_nat k)); [| lia].
  replace (Z.to_nat (Z.of_nat k - (-1 + 1))) with k by lia.
  replace (Z.to_nat (-1 + 1)) with 0%nat by lia.
  by rewrite Nat2Z.id.
Qed.

Lemma not_all_dots c s :
  not_char "." c = true → Str.forallb (Ascii.eqb ".") (String c s) = false.
Proof.
  unfold not_char. intros H%negb_true_iff.
  change (Str.forallb (Ascii.eqb ".") (String c s))
    with (Ascii.eqb "." c && Str.forallb (Ascii.eqb ".") s).
  rewrite Ascii.eqb_sym, H. reflexivity.
Qed.

(** The extension is cut off at the last dot. *)
Lemma splitext_join a e :
  (∃ c a', a = String c a' ∧ not_char "." c = true) →
  Str.forallb (not_char "/") a = true →
  Str.forallb (not_char "/") e = true →
  Str.forallb (not_char ".") e = true →
  splitext (a +:+ String "." e) = (a, String "." e).
Proof.
  intros (c & a' & Ha & Hc) Hsa Hse Hde.
  rewrite splitext_no_sep.
  2:{ rewrite forallb_app. simpl. by rewrite Hsa, Hse. }
  rewrite (rfind_nat_last _ _ _ Hde).
  rewrite take_app_le, take_all, drop_app_length by lia.
  rewrite Ha at 1. by rewrite (not_all_dots _ _ Hc).
Qed.

(** What [splitext] answers on a name that has no separator and does not
    start with a dot. *)
Lemma splitext_cases p :
  (∃ c rest, p = String c rest ∧ not_char "." c = true) →
  Str.forallb (not_char "/") p = true →
  (splitext p = (p, "") ∧ Str.forallb (not_char ".") p = true)
  ∨ (∃ k e, splitext p = (Str.take k p, String "." e)
            ∧ Str.drop k p = String "." e
            ∧ Str.forallb (not_char ".") e = true
            ∧ (1 ≤ k)%nat).
Proof.
  intros (c & rest & -> & Hc) Hsep. rewrite (splitext_no_sep _ Hsep).
  destruct (Str.rfind_nat "." (String c rest)) as [k|] eqn:Hk.
  - right. destruct (rfind_nat_Some _ _ _ Hk) as (e & Hdrop & He).
    destruct k as [|k].
    { simpl in Hdrop. injection Hdrop as -> _. done. }
    exists (S k), e. rewrite Hdrop.
    change (Str.take (S k) (String c rest))
      with (String c (Str.take k rest)).
    rewrite (not_all_dots _ _ Hc). repeat split; [done | lia].
  - left. split; [done |]. by apply rfind_nat_None.
Qed.

Lemma drop_collapsed n s :
  ws_collapsed s = true → ws_collapsed (Str.drop n s) = true.
Proof.
  revert s. induction n as [|n IH]; intros [|c s]; simpl; try done.
  intros [_ Hs]%andb_true_iff. by apply IH.
Qed.

Lemma drop_after_prefix c p s k e :
  Str.forallb (not_char c) p = true →
  Str.drop k (p +:+ s) = String c e → (String.length p ≤ k)%nat.
Proof.
  revert k. induction p as [|a p IH]; intros k; simpl; [lia |].
  intros [Ha Hp]%andb_true_iff. destruct k as [|k]; simpl.
  - intros [= -> _]. unfold not_char in Ha.
    by rewrite Ascii.eqb_refl in Ha.
  - intros H. specialize (IH k Hp H). lia.
Qed.

Lemma take_take n m s :
  Str.take n (Str.take m s) = Str.take (Nat.min n m) s.
Proof.
  revert m s. induction n as [|n IH]; intros [|m] [|c s]; simpl; try done.
  by rewrite IH.
Qed.

Lemma slice_to_nat s (n : nat) : Str.slice_to s (Z.of_nat n) = Str.take n s.
Proof.
  unfold Str.slice_to. destruct (Z.leb_spec 0 (Z.of_nat n)); [| lia].
  by rewrite Nat2Z.id.
Qed.

Lemma sanitize_filename_unfold name t :
  sanitize_filename name t =
    if (150 <? String.length (clean_filename name t))%nat then
      Str.take 140 (fst (splitext (clean_filename name t)))
      +:+ Str.take 10 (extension (clean_filename name t))
    else clean_filename name t.
Proof.
  unfold sanitize_filename, extension.
  destruct (150 <? _)%nat; [| done].
  destruct (splitext _) as [root ext]. reflexivity.
Qed.

(** C9, as the code has it. The stored name starts with the ticket number
    and an underscore (as long as the number has fewer than 140 digits),
    holds none of the removed characters, has its white space collapsed,
    and has at most 150 characters: a cleaned name of at most 150
    characters is kept whole, a longer one becomes the first 140
    characters of its root followed by the first 10 characters of its
    extension, so an extension of at most 10 characters (the dot
    included) is kept and a longer one is cut. [save_attachment] writes
    the payload to [ATTACH_DIR / str(ticket_no) / name]. *)
Theorem sanitize_filename_properties (name : string) (ticket_no : Z) :
  let cleaned := clean_filename name ticket_no in
  let safe := sanitize_filename name ticket_no in
  starts_with (Str.of_Z ticket_no +:+ "_") cleaned
  ∧ ((String.length (Str.of_Z ticket_no) < 140)%nat →
     starts_with (Str.of_Z ticket_no +:+ "_") safe)
  ∧ Str.forallb (λ c, negb (is_illegal c)) safe = true
  ∧ ws_collapsed safe = true
  ∧ (String.length safe ≤ 150)%nat
  ∧ ((String.length cleaned ≤ 150)%nat → safe = cleaned)
  ∧ ((150 < String.length cleaned)%nat →
     safe = Str.take 140 (fst (splitext cleaned))
            +:+ Str.take 10 (extension cleaned)
     ∧ extension safe = Str.take 10 (extension cleaned))
  ∧ ((String.length (extension cleaned) ≤ 10)%nat →
     extension safe = extension cleaned)
  ∧ (∀ env part uid w bytes,
       get_filename part = Some name → Str.truthy name = true →
       get_payload part = Some bytes →
       let fld := ATTACH_DIR w ++ [Str.of_Z ticket_no] in
       write_fails env fld = false →
       write_fails env (fld ++ [safe]) = false →
       ∃ w', save_attachment env part uid ticket_no w
               = (Returned (Some (fld ++ [safe])), w')
             ∧ files w' = <[fld ++ [safe] := bytes]> (files w)).
Proof.
  intros cleaned safe. fold (ticket_prefix ticket_no). fold legal.
  pose proof (clean_filename_shape name ticket_no) as Hshape.
  pose proof (clean_filename_legal name ticket_no) as Hlegal.
  pose proof (clean_filename_collapsed name ticket_no) as Hcoll.
  pose proof (sanitize_filename_unfold name ticket_no) as Hsafe.
  fold cleaned in Hshape, Hlegal, Hcoll, Hsafe. fold safe in Hsafe.
  set (P := ticket_prefix ticket_no) in *.
  set (y := Str.rstrip _) in Hshape.
  assert (Str.forallb (not_char ".") P = true) as HPdot.
  { eapply forallb_impl; [| apply ticket_prefix_chars]. intros c Hc.
    by apply number_char_facts in Hc as (_ & _ & ?). }
  assert (Str.forallb (not_char "/") cleaned = true) as Hsep.
  { eapply forallb_impl; [| exact Hlegal]. apply legal_not_slash. }
  assert (∃ c rest, cleaned = String c rest ∧ not_char "." c = true)
    as Hfirst.
  { destruct (ticket_prefix_nonempty ticket_no) as (c & rest & HP).
    fold P in HP. rewrite HP in HPdot. simpl in HPdot.
    apply andb_true_iff in HPdot as [Hc _].
    exists c, (rest +:+ y). by rewrite Hshape, HP. }
  assert (starts_with P cleaned) as Hstart by (by exists y).
  assert ((150 < String.length cleaned)%nat →
          starts_with_space (Str.take 10 (extension cleaned)) = false
          ∧ safe = Str.take 140 (fst (splitext cleaned))
                   +:+ Str.take 10 (extension cleaned)
          ∧ extension safe = Str.take 10 (extension cleaned)
          ∧ Str.forallb legal safe = true
          ∧ ((String.length P ≤ 140)%nat → starts_with P safe)) as Hlong.
  { intros Hlen. apply Nat.ltb_lt in Hlen. rewrite Hlen in Hsafe.
    unfold extension in *.
    destruct (splitext_cases cleaned Hfirst Hsep)
      as [[Hsplit Hdots] | (k & e & Hsplit & Hdrop & He & Hk)];
      rewrite Hsplit in Hsafe |- *; cbn [fst snd] in Hsafe |- *.
    - (* no dot at all *)
      rewrite app_nil_r in Hsafe. rewrite Hsafe, app_nil_r.
      repeat split.
      + rewrite splitext_no_sep by (by apply forallb_take).
        assert (Str.rfind_nat "." (Str.take 140 cleaned) = None) as ->;
          [| done].
        by apply rfind_nat_None, forallb_take.
      + by apply forallb_take.
      + intros HP. exists (Str.take (140 - String.length P) y).
        by rewrite Hshape, take_app_ge.
    - (* cut at the last dot *)
      assert (String.length P ≤ k)%nat as HPk.
      { eapply (drop_after_prefix "." P y); [done |].
        rewrite <- Hshape. exact Hdrop. }
      assert (Str.forallb legal (String "." e) = true) as Hle.
      { rewrite <- Hdrop. by apply forallb_drop. }
      rewrite take_take in Hsafe |- *.
      change (Str.take 10 (String "." e))
        with (String "." (Str.take 9 e)) in Hsafe |- *.
      repeat split; try done.
      + rewrite Hsafe, splitext_join; [done | | | |].
        * destruct Hfirst as (c & rest & -> & Hc).
          destruct (Nat.min 140 k) as [|j] eqn:Hj; [lia |].
          simpl. eauto.
        * by apply forallb_take.
        * eapply forallb_impl; [apply legal_not_slash |].
          apply (forallb_take _ 10) in Hle. exact Hle.
        * by apply forallb_take.
      + rewrite Hsafe, forallb_app. apply andb_true_iff.
        split; [by apply forallb_take |].
        apply (forallb_take _ 10) in Hle. exact Hle.
      + intros HP. rewrite Hsafe, Hshape.
        rewrite take_app_ge by lia. rewrite app_assoc. by eexists. }
  repeat split.
  - exact Hstart.
  - intros Ht. destruct (150 <? String.length cleaned)%nat eqn:Hlen.
    + apply Nat.ltb_lt in Hlen. apply Hlong; [done |].
      unfold P. rewrite ticket_prefix_length. lia.
    + by rewrite Hsafe.
  - destruct (150 <? String.length cleaned)%nat eqn:Hlen.
    + apply Nat.ltb_lt in Hlen. by apply Hlong.
    + by rewrite Hsafe.
  - destruct (150 <? String.length cleaned)%nat eqn:Hlen.
    + apply Nat.ltb_lt in Hlen.
      destruct (Hlong Hlen) as (Hsp & -> & _).
      apply app_collapsed; [| | done].
      * apply take_collapsed.
        destruct (splitext_cases cleaned Hfirst Hsep)
          as [[-> _] | (k & e & -> & _)]; cbn [fst snd]; [done |].
        by apply take_collapsed.
      * apply take_collapsed. unfold extension.
        destruct (splitext_cases cleaned Hfirst Hsep)
          as [[-> _] | (k & e & -> & <- & _)]; cbn [fst snd]; [done |].
        by apply drop_collapsed.
    + by rewrite Hsafe.
  - destruct (150 <? String.length cleaned)%nat eqn:Hlen.
    + apply Nat.ltb_lt in Hlen. destruct (Hlong Hlen) as (_ & -> & _).
      rewrite length_app, !length_take. lia.
    + apply Nat.ltb_ge in Hlen. by rewrite Hsafe.
  - intros Hlen%Nat.ltb_ge. by rewrite Hlen in Hsafe.
  - by apply Hlong.
  - by apply Hlong.
  - intros Hext. destruct (150 <? String.length cleaned)%nat eqn:Hlen.
    + apply Nat.ltb_lt in Hlen. destruct (Hlong Hlen) as (_ & _ & -> & _).
      by apply take_all.
    + by rewrite Hsafe.
  - intros env part uid w bytes Hfn Htruthy Hpay fld Hdir Hfile.
    unfold save_attachment. rewrite Hfn.
    change (or_empty (Some name)) with name. rewrite Htruthy.
    cbv [mbind M_bind gets mkdir write_file modify negb mret M_ret].
    fold fld. rewrite Hdir, Hpay. fold safe. rewrite Hfile.
    eexists. split; reflexivity.
Qed.

(** A name with a short extension keeps it under the cap. *)
Lemma sanitize_filename_properties_witness :
  let safe := sanitize_filename (replicate_char 160 "a" +:+ ".pdf") 42 in
  starts_with "42_" safe
  ∧ (String.length safe ≤ 150)%nat
  ∧ extension safe = ".pdf".
Proof.
  intros safe.
  destruct (sanitize_filename_properties (replicate_char 160 "a" +:+ ".pdf") 42)
    as (_ & Hprefix & _ & _ & Hlen & _ & _ & Hext & _).
  split; [apply Hprefix; vm_compute; lia |].
  split; [exact Hlen |].
  fold safe in Hext. rewrite Hext; [reflexivity | vm_compute; lia].
Defined.

(** The name of 150 letters with a 17-character extension keeps only
    ten characters of the extension; and a ticket number of 151 digits
    does not survive the cut to 140 characters. *)
Lemma long_extension_is_cut :
  extension (sanitize_filename long_name 7) = ".abcdefghi"
  ∧ extension (clean_filename long_name 7) = ".abcdefghijklmnop"
  ∧ extension (sanitize_filename long_name 7)
    ≠ extension (clean_filename long_name 7)
  ∧ ¬ starts_with (Str.of_Z (10 ^ 150) +:+ "_")
        (sanitize_filename "x" (10 ^ 150)).
Proof.
  repeat apply conj; try (vm_compute; reflexivity).
  - vm_compute. discriminate.
  - intros [rest H]. apply (f_equal String.length) in H.
    rewrite length_app in H. vm_compute in H. lia.
Qed.

(* ================================================================= *)
(** ** The pipeline *)

(** Unfolds the monad's operations in the goal. *)
Ltac run_monad :=
  cbv [mbind M_bind mret M_ret raise gets modify try_except execute
       rollback commit].

(** *** Bounce path *)

Lemma process_email_bounce env msg w :
  is_undelivered msg = true →
  process_email env msg w =
    if stmt_fails env InsertUndelivered then (Raised DatabaseError, w)
    else (Returned (true, None),
          set_db (set_pending (insert_undelivered (bounce_row env msg))) w).
Proof.
  intros Hb. unfold process_email. rewrite Hb.
  unfold store_undelivered_email. run_monad.
  by destruct (stmt_fails env InsertUndelivered).
Qed.

(** A bounce adds one record to the open transaction, and nothing to
    what is committed. *)
Lemma process_email_bounce_effect env msg w ok w' :
  is_undelivered msg = true →
  process_email env msg w = (Returned ok, w') →
  ok = (true, None)
  ∧ undelivered_emails (pending (db w'))
    = undelivered_emails (pending (db w)) ++ [bounce_row env msg]
  ∧ cms (pending (db w')) = cms (pending (db w))
  ∧ committed (db w') = committed (db w).
Proof.
  intros Hb. rewrite (process_email_bounce _ _ _ Hb).
  destruct (stmt_fails env InsertUndelivered); [done |].
  by intros [= <- <-].
Qed.

Lemma bounce_row_fields env msg :
  Undelivered.sender_email (bounce_row env msg)
    = fit (Some (hdr_sender (headers msg))) 200
  ∧ Undelivered.reason (bounce_row env msg) = "Undelivered Mail/Return".
Proof. done. Qed.

(** *** Ticket path *)

Lemma save_attachment_db env part uid tno w :
  db (save_attachment env part uid tno w).2 = db w
  ∧ ATTACH_DIR (save_attachment env part uid tno w).2 = ATTACH_DIR w.
Proof.
  unfold save_attachment, mkdir, write_file. run_monad.
  repeat case_match; simplify_eq/=; done.
Qed.

Lemma save_attachments_db env parts tno w :
  ∃ w', save_attachments env parts tno w = (Returned tt, w')
        ∧ db w' = db w ∧ ATTACH_DIR w' = ATTACH_DIR w
        ∧ uuid_log w' = uuid_log w.
Proof.
  revert w. induction parts as [|part rest IH]; intros w; simpl.
  - by exists w.
  - run_monad. destruct (truthy_opt (get_filename part)).
    + pose proof (save_attachment_db env part (uuid env) tno w) as [Hdb Hdir].
      assert (uuid_log (save_attachment env part (uuid env) tno w).2
              = uuid_log w) as Hlog.
      { unfold save_attachment, mkdir, write_file. run_monad.
        repeat case_match; simplify_eq/=; done. }
      destruct (save_attachment env part (uuid env) tno w) as [[?|?] w1];
        simpl in *; destruct (IH w1) as (w' & -> & ? & ? & ?);
        exists w'; repeat split; congruence.
    + apply IH.
Qed.

(** An exception inside the [try] block leaves the committed rows as they
    were. *)
Lemma try_block_raised env msg mi w e w1 :
  try_block env msg mi w = (Raised e, w1) →
  committed (db w1) = committed (db w) ∧ ATTACH_DIR w1 = ATTACH_DIR w.
Proof.
  unfold try_block, ticket_transaction, next_ticket_number,
    extract_and_save_body, fetch_member, store_in_cms, write_file.
  run_monad. intros H.
  repeat (case_match; simplify_eq/=); done.
Qed.

(** Each of these failures makes the [try] block raise: of the two
    statements of the allocator, of the member lookup or the file write of
    the body rendering, of the [INSERT], of the [COMMIT]. *)
Lemma try_block_raises_on_failure env msg mi w :
  stmt_fails env SetIsolationAlloc = true
  ∨ stmt_fails env SelectMax = true
  ∨ (truthy_opt (mi ≫= Member.FFNUM) = true
     ∧ stmt_fails env SelectMember = true)
  ∨ write_fails env
      (ATTACH_DIR w
       ++ [Str.of_Z (next_ticket_number_of (cms (pending (db w)))) +:+ ".html"])
    = true
  ∨ stmt_fails env InsertCms = true
  ∨ stmt_fails env Commit = true →
  ∃ e w1, try_block env msg mi w = (Raised e, w1).
Proof.
  unfold try_block, ticket_transaction, next_ticket_number,
    extract_and_save_body, fetch_member, store_in_cms, write_file.
  run_monad. intros H.
  repeat (case_match; simplify_eq/=); try by eauto.
  all: destruct H as [? | [? | [[? ?] | [? | [? | ?]]]]]; congruence.
Qed.

(** When the [try] block returns, the ticket is committed under the
    number computed from the rows seen at its start. *)
Lemma try_block_returned env msg mi w tno w1 :
  try_block env msg mi w = (Returned tno, w1) →
  tno = next_ticket_number_of (cms (pending (db w)))
  ∧ committed (db w1) = pending (db w1)
  ∧ ∃ row, cms (committed (db w1)) = cms (pending (db w)) ++ [row]
           ∧ Cms.tkt_no row = Some tno
           ∧ Cms.email row = fit (Some (hdr_sender (headers msg))) 200.
Proof.
  unfold try_block, ticket_transaction, next_ticket_number,
    extract_and_save_body, fetch_member, store_in_cms, write_file.
  run_monad. intros H.
  repeat (case_match; simplify_eq/=); eauto 10.
Qed.

Lemma process_email_request env msg w :
  is_undelivered msg = false →
  stmt_fails env SelectMemberByEmail = false →
  stmt_fails env SetIsolation = false →
  process_email env msg w =
    match try_block env msg (sender_member msg w) w with
    | (Raised e, w1) => (Raised e, set_db db_rollback w1)
    | (Returned tno, w1) =>
        (save_attachments env (walk msg) tno;;
         log_uuid env tno (uuid env);;
         mret (true, Some tno)) w1
    end.
Proof.
  intros Hb Hm Hi. unfold process_email, fetch_member_by_email.
  rewrite Hb. run_monad. rewrite Hm, Hi. fold (sender_member msg w).
  by destruct (try_block env msg (sender_member msg w) w) as [[?|?] ?].
Qed.

(** Whatever happens, [process_email] answers: it returns [(True, _)] or
    raises. *)
Lemma process_email_outcome env msg w ok tno w' :
  process_email env msg w = (Returned (ok, tno), w') → ok = true.
Proof.
  unfold process_email, store_undelivered_email, fetch_member_by_email,
    log_uuid.
  run_monad. intros H.
  destruct (is_undelivered msg).
  - repeat (case_match; simplify_eq/=); done.
  - destruct (stmt_fails env SelectMemberByEmail); [done |].
    destruct (stmt_fails env SetIsolation); [done |].
    destruct (try_block _ _ _ _) as [[n|e] w1]; [| done].
    destruct (save_attachments_db env (walk msg) n w1) as (w2 & Hs & _).
    rewrite Hs in H. repeat (case_match; simplify_eq/=); done.
Qed.

(** Between two messages the open transaction holds no ticket of its
    own: its [dbo.cms] rows are the committed ones. *)
Lemma process_email_cms_settled env msg w :
  cms (pending (db w)) = cms (committed (db w)) →
  cms (pending (db (process_email env msg w).2))
  = cms (committed (db (process_email env msg w).2)).
Proof.
  intros Heq. destruct (is_undelivered msg) eqn:Hb.
  - rewrite (process_email_bounce _ _ _ Hb).
    by destruct (stmt_fails env InsertUndelivered).
  - destruct (stmt_fails env SelectMemberByEmail) eqn:Hm.
    { unfold process_email, fetch_member_by_email. rewrite Hb. run_monad.
      by rewrite Hm. }
    destruct (stmt_fails env SetIsolation) eqn:Hi.
    { unfold process_email, fetch_member_by_email. rewrite Hb. run_monad.
      by rewrite Hm, Hi. }
    rewrite (process_email_request _ _ _ Hb Hm Hi).
    destruct (try_block env msg (sender_member msg w) w) as [[tno|e] w1]
      eqn:Hblock; [| done].
    apply try_block_returned in Hblock as (_ & Hsame & _).
    run_monad.
    destruct (save_attachments_db env (walk msg) tno w1)
      as (w2 & -> & Hdb & _).
    unfold log_uuid. run_monad.
    destruct (write_fails _ _); simpl; by rewrite Hdb, Hsame.
Qed.

(** *** The loop of [main] *)

Lemma main_loop_cons envs idx_to_uid st i rest :
  main_loop envs idx_to_uid st (i :: rest)
  = main_loop envs idx_to_uid (loop_body envs idx_to_uid st i) rest.
Proof. reflexivity. Qed.

(** An identifier enters [seen] only in a turn whose message was
    processed to the end and deleted from the mailbox. *)
Lemma seen_grows_only_after_delete envs idx_to_uid st i :
  seen (loop_body envs idx_to_uid st i) ≠ seen st →
  dele_fails (envs i) = false
  ∧ i ∈ deleted (loop_body envs idx_to_uid st i)
  ∧ ∃ msg tno w', retr (envs i) = Some msg
      ∧ process_email (envs i) msg (world st) = (Returned (true, tno), w')
      ∧ world (loop_body envs idx_to_uid st i) = w'.
Proof.
  unfold loop_body. intros H.
  destruct (uid_seen _ _); [done |].
  destruct (retr (envs i)) as [msg|]; [| done].
  destruct (process_email (envs i) msg (world st)) as [[[ok tno]|e] w'] eqn:Hp;
    [| done].
  destruct ok; [| done].
  destruct (dele_fails (envs i)); [done |]. simpl in *.
  split; [done |]. split; [apply elem_of_union_l, elem_of_singleton; done |].
  by exists msg, tno, w'.
Qed.

(** For a request, the turn that marks the identifier has committed the
    ticket. *)
Lemma request_seen_after_commit envs idx_to_uid st i msg :
  retr (envs i) = Some msg →
  is_undelivered msg = false →
  seen (loop_body envs idx_to_uid st i) ≠ seen st →
  ∃ row, row ∈ cms (committed (db (world (loop_body envs idx_to_uid st i))))
         ∧ Cms.email row = fit (Some (hdr_sender (headers msg))) 200.
Proof.
  intros Hretr Hb Hseen.
  destruct (seen_grows_only_after_delete _ _ _ _ Hseen)
    as (_ & _ & msg' & tno & w' & Hretr' & Hp & ->).
  rewrite Hretr in Hretr'. injection Hretr' as <-.
  revert Hp. unfold process_email, fetch_member_by_email, log_uuid.
  rewrite Hb. run_monad.
  destruct (stmt_fails (envs i) SelectMemberByEmail); [done |].
  destruct (stmt_fails (envs i) SetIsolation); [done |].
  destruct (try_block _ _ _ _) as [[n|e] w1] eqn:Hblock; [| done].
  apply try_block_returned in Hblock as (_ & _ & row & Hrows & _ & Hemail).
  destruct (save_attachments_db (envs i) (walk msg) n w1)
    as (w2 & -> & Hdb & _).
  destruct (write_fails _ _); [done |]. intros [= _ <-]. simpl.
  exists row. rewrite Hdb, Hrows. split; [| done].
  apply elem_of_app. right. by left.
Qed.

(** C5, as the code has it. When the [try] block of the ticket path
    raises, [process_email] rolls the transaction back and raises: the
    committed rows are as before and nothing is pending; the next ticket
    number is computed from the committed rows again, so that it is the
    number this transaction was given (the number is given out again,
    not skipped); the message is neither deleted nor marked as seen, and
    the loop goes on with the next index. *)
Theorem ticket_failure_rolls_back (envs : Z → Env)
    (idx_to_uid : gmap Z string) (st : Run) (i : Z) (rest : list Z)
    (msg : Message) (e : exn) (w1 : World) :
  uid_seen (idx_to_uid !! i) (seen st) = false →
  retr (envs i) = Some msg →
  is_undelivered msg = false →
  stmt_fails (envs i) SelectMemberByEmail = false →
  stmt_fails (envs i) SetIsolation = false →
  try_block (envs i) msg (sender_member msg (world st)) (world st)
    = (Raised e, w1) →
  let st' := loop_body envs idx_to_uid st i in
  process_email (envs i) msg (world st) = (Raised e, set_db db_rollback w1)
  ∧ committed (db (world st')) = committed (db (world st))
  ∧ pending (db (world st')) = committed (db (world st))
  ∧ next_ticket_number_of (cms (pending (db (world st'))))
    = next_ticket_number_of (cms (committed (db (world st))))
  ∧ (cms (pending (db (world st))) = cms (committed (db (world st))) →
     ∀ n w', next_ticket_number (envs i) (world st) = (Returned n, w') →
             next_ticket_number_of (cms (pending (db (world st')))) = n)
  ∧ seen st' = seen st
  ∧ deleted st' = deleted st
  ∧ main_loop envs idx_to_uid st (i :: rest)
    = main_loop envs idx_to_uid st' rest.
Proof.
  intros Hgate Hretr Hb Hm Hi Hblock st'.
  assert (process_email (envs i) msg (world st)
          = (Raised e, set_db db_rollback w1)) as Hp.
  { by rewrite process_email_request, Hblock. }
  apply try_block_raised in Hblock as [Hc _].
  assert (loop_body envs idx_to_uid st i
          = with_world st (set_db db_rollback w1)) as Hst.
  { unfold loop_body. by rewrite Hgate, Hretr, Hp. }
  unfold st'. rewrite main_loop_cons, Hst. simpl. rewrite Hc.
  repeat split; try done.
  intros Heq n w'. unfold next_ticket_number. run_monad.
  repeat case_match; try done. intros [= <- _]. congruence.
Qed.

(** The [INSERT] of the only message fails: nothing is committed, nothing
    is pending, the message stays. *)
Lemma ticket_failure_rolls_back_witness :
  let st := {| world := world0; seen := ∅; deleted := ∅ |} in
  let st' := loop_body (λ _, insert_breaks hello_msg) ∅ st 1 in
  cms (committed (db (world st'))) = []
  ∧ pending (db (world st')) = committed (db world0)
  ∧ seen st' = ∅ ∧ deleted st' = ∅.
Proof.
  intros st st'.
  destruct (ticket_failure_rolls_back (λ _, insert_breaks hello_msg) ∅ st 1 []
              hello_msg DatabaseError
              (try_block (insert_breaks hello_msg) hello_msg None world0).2)
    as (_ & Hc & Hp & _ & _ & Hs & Hd & _); try (vm_compute; reflexivity).
  fold st' in Hc, Hp, Hs, Hd. rewrite Hc, Hp, Hs, Hd.
  repeat apply conj; reflexivity.
Defined.

(** The first message is given number 1 (its body is written to
    [1.html]) and fails at the [INSERT]; the second message is given
    number 1 again and commits under it. *)
Lemma rolled_back_number_is_reused :
  let first := process_email (insert_breaks hello_msg) hello_msg world0 in
  let second := process_email (calm second_msg) second_msg first.2 in
  first.1 = Raised DatabaseError
  ∧ is_Some (files first.2 !! ["attachments"; "1.html"])
  ∧ cms (committed (db first.2)) = []
  ∧ second.1 = Returned (true, Some 1)
  ∧ Cms.tkt_no <$> cms (committed (db second.2)) = [Some 1]
  ∧ Cms.Subject <$> cms (committed (db second.2)) = ["Second"].
Proof.
  cbv zeta. repeat apply conj; try (vm_compute; reflexivity).
  vm_compute. by eexists.
Qed.

(** A turn whose index has no identifier leaves [seen] alone. *)
Lemma loop_body_unknown_seen envs (idx_to_uid : gmap Z string) st i :
  idx_to_uid !! i = None → seen (loop_body envs idx_to_uid st i) = seen st.
Proof.
  intros Hnone. unfold loop_body. rewrite Hnone. simpl.
  repeat case_match; done.
Qed.

(** C10. In a turn whose index has no entry in the UIDL map, the gate
    does not look at [seen] (the outcome is the same for every content of
    it), the message retrieved is processed, and [seen] is left as it
    was, also when the message was committed and deleted. *)
Theorem unknown_uid_never_marked (envs : Z → Env)
    (idx_to_uid : gmap Z string) (st : Run) (i : Z) (other : gset string) :
  idx_to_uid !! i = None →
  let st' := loop_body envs idx_to_uid st i in
  let st'' := loop_body envs idx_to_uid
                {| world := world st; seen := other; deleted := deleted st |} i in
  (∀ msg, retr (envs i) = Some msg →
          world st' = (process_email (envs i) msg (world st)).2)
  ∧ (∀ msg r w', retr (envs i) = Some msg →
                 process_email (envs i) msg (world st) = (Returned r, w') →
                 dele_fails (envs i) = false →
                 deleted st' = {[i]} ∪ deleted st)
  ∧ world st'' = world st' ∧ deleted st'' = deleted st'
  ∧ seen st'' = other
  ∧ seen st' = seen st.
Proof.
  intros Hnone st' st''. unfold st', st'', loop_body. rewrite Hnone. simpl.
  destruct (retr (envs i)) as [msg|]; simpl.
  - destruct (process_email (envs i) msg (world st)) as [[[ok tno]|e] w'] eqn:Hp.
    + rewrite (process_email_outcome _ _ _ _ _ _ Hp).
      destruct (dele_fails (envs i)); simpl; repeat split;
        intros; simplify_eq; rewrite ?Hp; done.
    + repeat split; intros; simplify_eq; rewrite ?Hp;
        first [done | congruence].
  - repeat split; intros; simplify_eq; done.
Qed.

(** A request without identifier is committed and deleted, and [seen]
    stays empty. *)
Lemma unknown_uid_never_marked_witness :
  let st := {| world := world0; seen := ∅; deleted := ∅ |} in
  let st' := loop_body (λ _, calm hello_msg) ∅ st 1 in
  seen st' = ∅ ∧ deleted st' = {[1]}
  ∧ Cms.tkt_no <$> cms (committed (db (world st'))) = [Some 1].
Proof.
  intros st st'.
  destruct (unknown_uid_never_marked (λ _, calm hello_msg) ∅ st 1 ∅)
    as (_ & _ & _ & _ & _ & Hs); [vm_compute; reflexivity |].
  fold st' in Hs. split; [exact Hs |]. split; vm_compute; reflexivity.
Defined.

(** Lines without an index or without an identifier give no entry; an
    index written with a superscript digit passes [isdigit] and makes
    [int] raise. *)
Example get_uidl_map_skips :
  get_uidl_map (Some ["1 a"; "x b"; "3"; " 4   d e "])
  = Some {[1 := "a"; 4 := "d"]}
  ∧ get_uidl_map (Some [String (ascii_of_nat 178) " a"]) = None.
Proof. split; vm_compute; reflexivity. Qed.

(** Without a UIDL answer no index has an identifier, and the run leaves
    the set as it found it. *)
Lemma main_without_uidl msg_count envs seen_file w :
  seen (main None msg_count envs seen_file w) = load_seen_uidls seen_file.
Proof.
  unfold main, main_loop. simpl.
  assert (∀ l st, seen (foldl (loop_body envs ∅) st l) = seen st) as H.
  { induction l as [|i l IH]; intros st; simpl; [done |].
    rewrite IH. apply loop_body_unknown_seen, lookup_empty. }
  by rewrite H.
Qed.

(** What is saved is read back as the same set. *)
Lemma load_save_seen_uidls seen :
  load_seen_uidls (Some (save_seen_uidls seen)) = seen.
Proof.
  unfold load_seen_uidls, save_seen_uidls. apply set_eq. intros x.
  by rewrite elem_of_list_to_set, merge_sort_Permutation, elem_of_elements.
Qed.

(* ================================================================= *)
(** ** Bounce records and the open transaction *)

(** C3, at Scenario B. The message is a bounce; [process_email] puts one
    record with the sender and the reason into the open transaction and
    no ticket, and returns without a commit; [main] then deletes the
    message and marks it seen, and closes the connection: nothing is
    committed. *)
Theorem bounce_record_is_not_committed :
  let env := calm bounce_msg in
  let after := (process_email env bounce_msg world0).2 in
  let run := main (Some ["1 uid-1"]) 1 (λ _, env) None world0 in
  is_undelivered bounce_msg = true
  ∧ (process_email env bounce_msg world0).1 = Returned (true, None)
  ∧ undelivered_emails (pending (db after))
    = [{| Undelivered.sender_email := "postmaster@b.com";
          Undelivered.date_received := now env;
          Undelivered.reason := "Undelivered Mail/Return" |}]
  ∧ cms (pending (db after)) = []
  ∧ undelivered_emails (committed (db after)) = []
  ∧ deleted run = {[1]}
  ∧ seen run = {["uid-1"]}
  ∧ undelivered_emails (committed (db (world run))) = []
  ∧ undelivered_emails (pending (db (world run))) = [].
Proof. cbv zeta. repeat apply conj; vm_compute; reflexivity. Qed.

(** C4, on a bounce followed by a request whose [INSERT] fails. After
    the first turn the identifier of the bounce is in [seen] and the
    message is deleted while its record is only pending; the rollback of
    the second turn discards the record. *)
Theorem bounce_marked_seen_before_commit :
  let envs := λ i : Z, if i =? 1 then calm bounce_msg
                       else insert_breaks hello_msg in
  let idx_to_uid : gmap Z string := {[1 := "b1"; 2 := "r2"]} in
  let st0 := {| world := world0; seen := ∅; deleted := ∅ |} in
  let st1 := loop_body envs idx_to_uid st0 1 in
  let st2 := loop_body envs idx_to_uid st1 2 in
  get_uidl_map (Some ["1 b1"; "2 r2"]) = Some idx_to_uid
  ∧ seen st1 = {["b1"]} ∧ deleted st1 = {[1]}
  ∧ undelivered_emails (committed (db (world st1))) = []
  ∧ length (undelivered_emails (pending (db (world st1)))) = 1%nat
  ∧ seen st2 = {["b1"]} ∧ deleted st2 = {[1]}
  ∧ undelivered_emails (committed (db (world st2))) = []
  ∧ undelivered_emails (pending (db (world st2))) = []
  ∧ main (Some ["1 b1"; "2 r2"]) 2 envs None world0
    = with_world st2 (set_db db_close (world st2)).
Proof. cbv zeta. repeat apply conj; vm_compute; reflexivity. Qed.

(** A later commit of the same run publishes the pending record. *)
Example bounce_then_request_commits_both :
  let envs := λ i : Z, if i =? 1 then calm bounce_msg else calm hello_msg in
  let run := main (Some ["1 b1"; "2 r2"]) 2 envs None world0 in
  length (undelivered_emails (committed (db (world run)))) = 1%nat
  ∧ Cms.tkt_no <$> cms (committed (db (world run))) = [Some 1].
Proof. cbv zeta. repeat apply conj; vm_compute; reflexivity. Qed.

(** Scenario A of the specification. *)
Example scenario_A :
  let run := main (Some ["1 uid-1"]) 1 (λ _, calm hello_msg) None world0 in
  Cms.email <$> cms (committed (db (world run))) = ["a@b.com"]
  ∧ Cms.ffnum <$> cms (committed (db (world run))) = [""]
  ∧ deleted run = {[1]} ∧ seen run = {["uid-1"]}.
Proof. cbv zeta. repeat apply conj; vm_compute; reflexivity. Qed.

(** Scenario C run one transaction after the other: from a greatest
    number of 5, two requests get 6 and 7. *)
Example scenario_C_in_sequence :
  let five := {| Cms.tkt_no := Some 5; Cms.ffnum := ""; Cms.Req_Date := None;
                 Cms.Category := ""; Cms.Subject := ""; Cms.cstatus := "";
                 Cms.UpdateDate := None; Cms.UpdateBy := ""; Cms.fwd_to := "";
                 Cms.fwd_date := None; Cms.fwd_remarks := ""; Cms.fwd_by := "";
                 Cms.attachments := ""; Cms.email := ""; Cms.TopCategory := "";
                 Cms.CorporateDetails := ""; Cms.urgent := ""; Cms.Req_By := "";
                 Cms.PointsExp := ""; Cms.tier := "";
                 Cms.download_datetime := None; Cms.hitit_ref_no := "" |} in
  let w := set_db (λ _, {| committed := mkTables [five] [] [];
                           pending := mkTables [five] [] [] |}) world0 in
  let first := process_email (calm hello_msg) hello_msg w in
  let second := process_email (calm second_msg) second_msg first.2 in
  first.1 = Returned (true, Some 6) ∧ second.1 = Returned (true, Some 7).
Proof. cbv zeta. repeat apply conj; vm_compute; reflexivity. Qed.

(** Two calls of the allocator with no insert in between answer the same
    number. *)
Lemma next_ticket_number_twice env w n w' :
  next_ticket_number env w = (Returned n, w') →
  next_ticket_number env w' = (Returned n, w').
Proof.
  unfold next_ticket_number. run_monad.
  repeat (case_match; simplify_eq/=); try done.
  intros [= <- <-]. done.
Qed.

(* ================================================================= *)
(** ** Body selection *)

Lemma maintype_of_html part :
  get_content_type part = "text/html" →
  String.eqb (get_content_maintype part) "multipart" = false.
Proof. unfold get_content_maintype. by intros ->. Qed.

Lemma maintype_of_plain part :
  get_content_type part = "text/plain" →
  String.eqb (get_content_maintype part) "multipart" = false.
Proof. unfold get_content_maintype. by intros ->. Qed.

(** The loop stops at the first text/html part that decodes. *)
Lemma select_parts_first_html before part after txt body_content :
  get_content_type part = "text/html" →
  decoded_text part = Some txt →
  (∀ q, q ∈ before → get_content_type q = "text/html" → decoded_text q = None) →
  select_parts (before ++ part :: after) body_content false = (Some txt, true).
Proof.
  intros Hty Hdec. revert body_content.
  induction before as [|q before IH]; intros body_content Hbefore; simpl.
  - by rewrite (maintype_of_html _ Hty), Hty, Hdec.
  - assert (∀ b, select_parts (before ++ part :: after) b false
                 = (Some txt, true)) as Hrest.
    { intros b. apply IH. intros q' Hq'. apply Hbefore. by right. }
    destruct (String.eqb (get_content_maintype q) "multipart"); [done |].
    destruct (String.eqb_spec (get_content_type q) "text/html") as [Hq |].
    + rewrite (Hbefore q); [done | by left | done].
    + destruct (String.eqb (get_content_type q) "text/plain"); simpl;
        apply Hrest.
Qed.

(** Without a text/html part, the last text/plain part is the one
    kept. *)
Lemma select_parts_last_plain before part after body_content :
  get_content_type part = "text/plain" →
  (∀ q, q ∈ before ++ after → get_content_type q ≠ "text/html") →
  (∀ q, q ∈ after → get_content_type q ≠ "text/plain") →
  select_parts (before ++ part :: after) body_content false
  = (decoded_text part, false).
Proof.
  intros Hty Hhtml Hplain.
  assert (∀ b, select_parts after b false = (b, false)) as Hafter.
  { clear Hty. induction after as [|q after IH]; intros b; simpl; [done |].
    assert (∀ b, select_parts after b false = (b, false)) as Hrest.
    { apply IH.
      - intros q' Hq'. apply Hhtml. rewrite elem_of_app, elem_of_cons.
        apply elem_of_app in Hq' as [? | ?]; auto.
      - intros q' Hq'. apply Hplain. by right. }
    destruct (String.eqb (get_content_maintype q) "multipart"); [done |].
    destruct (String.eqb_spec (get_content_type q) "text/html") as [Hq |].
    { exfalso. apply (Hhtml q); [| done].
      apply elem_of_app. right. by left. }
    destruct (String.eqb_spec (get_content_type q) "text/plain") as [Hq |];
      [| simpl; apply Hrest].
    exfalso. apply (Hplain q); [by left | done]. }
  revert body_content.
  induction before as [|q before IH]; intros body_content; simpl.
  - rewrite (maintype_of_plain _ Hty), Hty. simpl. apply Hafter.
  - assert (∀ b, select_parts (before ++ part :: after) b false
                 = (decoded_text part, false)) as Hrest.
    { apply IH. intros q' Hq'. apply Hhtml.
      change ((q :: before) ++ after) with (q :: (before ++ after)).
      by right. }
    destruct (String.eqb (get_content_maintype q) "multipart"); [done |].
    destruct (String.eqb_spec (get_content_type q) "text/html") as [Hq |].
    { exfalso. apply (Hhtml q); [by left | done]. }
    destruct (String.eqb (get_content_type q) "text/plain"); simpl;
      apply Hrest.
Qed.

(** A message that is not multipart is never taken as HTML. *)
Lemma select_body_single h payload text :
  select_body (Leaf h payload text) = (text, false).
Proof. reflexivity. Qed.

(** C7, where the code leaves the stated order. A message that is one
    text/html part is stored as plain text inside [<pre>], while the same
    part inside a multipart message is stored as it is; and of two
    text/plain parts the second is stored. *)
Theorem body_selection_departs_from_order :
  select_body html_only_msg = (Some "<p>Hi</p>", false)
  ∧ body_document html_only_msg
    = "<html><body><pre><p>Hi</p></pre></body></html>"
  ∧ body_document html_in_multipart_msg = "<p>Hi</p>"
  ∧ select_body two_plain_msg = (Some "the attachment", false)
  ∧ body_document two_plain_msg
    = "<html><body><pre>the attachment</pre></body></html>".
Proof. cbv zeta. repeat apply conj; vm_compute; reflexivity. Qed.

(** Scenario D of the specification. *)
Example scenario_D :
  let ff1 := {| Member.FFNUM := Some "FF1"; Member.EMAIL := Some "a@b.com";
                Member.TITLE := Some "Ms"; Member.FNAME := Some "Ann";
                Member.LNAME := Some "Lee"; Member.tier := Some "G" |} in
  enriched_document hello_msg (Some "FF1") (Some ff1)
  = Some ("<html><body><pre>Hi there</pre>"
          +:+ "<hr><div><strong>Membership Information</strong></div><ul>"
          +:+ "<li><strong>FFNUM:</strong> FF1</li>"
          +:+ "<li><strong>Title:</strong> Ms</li>"
          +:+ "<li><strong>First Name:</strong> Ann</li>"
          +:+ "<li><strong>Last Name:</strong> Lee</li>"
          +:+ "<li><strong>Tier:</strong> G</li></ul></body></html>").
Proof. vm_compute. reflexivity. Qed.

(* ================================================================= *)
(** ** Ticket numbers stay distinct, one message after the other *)

Lemma log_uuid_db env tno uid w :
  db (log_uuid env tno uid w).2 = db w.
Proof. unfold log_uuid. run_monad. by destruct (write_fails _ _). Qed.

Lemma numbers_distinct_append rows row :
  NoDup (Cms.tkt_no <$> rows) →
  Cms.tkt_no row = Some (next_ticket_number_of rows) →
  NoDup (Cms.tkt_no <$> rows ++ [row]).
Proof.
  intros Hnd Hrow. rewrite fmap_app. apply NoDup_app. split; [done |].
  split; [| apply NoDup_singleton].
  intros x Hx [-> | []%elem_of_nil]%elem_of_cons.
  rewrite Hrow in Hx. apply next_ticket_number_of_above in Hx. lia.
Qed.

(** Handling one message, whatever fails, keeps the ticket numbers of
    the committed rows and of the rows in the open transaction free of
    duplicates. *)
Lemma process_email_keeps_numbers_distinct env msg w :
  numbers_distinct (db w) →
  numbers_distinct (db (process_email env msg w).2).
Proof.
  unfold numbers_distinct, ticket_numbers. intros [Hc Hp].
  destruct (is_undelivered msg) eqn:Hb.
  - rewrite (process_email_bounce _ _ _ Hb).
    by destruct (stmt_fails env InsertUndelivered).
  - destruct (stmt_fails env SelectMemberByEmail) eqn:Hm.
    { unfold process_email, fetch_member_by_email. rewrite Hb. run_monad.
      by rewrite Hm. }
    destruct (stmt_fails env SetIsolation) eqn:Hi.
    { unfold process_email, fetch_member_by_email. rewrite Hb. run_monad.
      by rewrite Hm, Hi. }
    rewrite (process_email_request _ _ _ Hb Hm Hi).
    destruct (try_block env msg (sender_member msg w) w) as [[tno|e] w1]
      eqn:Hblock.
    + apply try_block_returned in Hblock
        as (-> & Hsame & row & Hrows & Hno & _).
      run_monad.
      destruct (save_attachments_db env (walk msg)
                  (next_ticket_number_of (cms (pending (db w)))) w1)
        as (w2 & -> & Hdb & _).
      pose proof (log_uuid_db env (next_ticket_number_of (cms (pending (db w))))
                    (uuid env) w2) as Hlog.
      destruct (log_uuid _ _ _ w2) as [[[]|?] w3]; simpl in *;
        rewrite Hlog, Hdb, <- Hsame, Hrows;
        split; by apply numbers_distinct_append.
    + apply try_block_raised in Hblock as [Heq _]. simpl. by rewrite Heq.
Qed.
